(** * solver_utils: value iteration and Q-learning over a Tower-of-Hanoi MDP

    A shallow embedding of [src/solver_utils.py].

    - Python [float]s are IEEE-754 binary64 numbers: Rocq's primitive
      [float]s, with the same arithmetic and the same comparisons
      ([x > y] in Python is [y <? x] here). The tables hold floats
      ([Dict[..., float]]); the [int] literals [0] and [1] of the source
      stand where Python converts them to the floats [0.0] and [1.0].
    - A Python [dict] keeps its keys in insertion order and holds each key
      once: an association list, read by its first binding, written in
      place or appended.
    - The tables are mutable objects passed by reference: the heap is a
      list of objects, a reference is an index into it, and every function
      of the module is a computation that threads the heap and may raise.
*)

From Stdlib Require Import ZArith List Bool Lia.
From Stdlib Require Import Floats.
From stdpp Require Import base decidable option list.

Import ListNotations.
Open Scope float_scope.

(* Decimal literals denote the nearest binary64 value, as in Python. *)
#[local] Set Warnings "-inexact-float".

(** ** Dictionaries *)

Section Dict.
Context {K V : Type} `{EqDecision K}.

Definition dict := list (K * V).

(** [d[k]], [None] when the key is missing. *)
Fixpoint dict_get (d : dict) (k : K) : option V :=
  match d with
  | [] => None
  | (k', v) :: d' => if decide (k' = k) then Some v else dict_get d' k
  end.

(** [d[k] = v]: an existing key keeps its place, a new one goes last. *)
Fixpoint dict_set (d : dict) (k : K) (v : V) : dict :=
  match d with
  | [] => [(k, v)]
  | (k', v') :: d' =>
      if decide (k' = k) then (k', v) :: d' else (k', v') :: dict_set d' k v
  end.

(** [k in d] *)
Definition dict_mem (d : dict) (k : K) : bool :=
  match dict_get d k with Some _ => true | None => false end.

(** The keys, in iteration order. *)
Definition dict_keys (d : dict) : list K := map fst d.
End Dict.

Arguments dict : clear implicits.

(** ** Floats as Python uses them *)

(** [x > y] *)
Definition py_gt (x y : float) : bool := y <? x.

(** [x == y] *)
Definition py_eq (x y : float) : bool := x =? y.

(** [max(a, b)]: the first argument is kept unless the second is greater. *)
Definition py_max2 (a b : float) : float := if py_gt b a then b else a.

(** [float('-inf')] *)
Definition neg_inf : float := neg_infinity.

(** ** The heap, and computations over it *)

Inductive exn : Set :=
| KeyError     (* a missing dictionary key *)
| ValueError   (* [max] of an empty sequence *)
| BadRef.      (* the reference is not a live table of the expected kind;
                  references handed out by the allocators never are *)

Inductive result (A : Type) : Type :=
| Ok (a : A)
| Raise (e : exn).
Arguments Ok {A} a.
Arguments Raise {A} e.

Definition ref := nat.

Section Solver.
Context {State Action : Type}.
Context `{EqDecision State} `{EqDecision Action}.

(** [tm.VTable], [tm.QTable], [tm.Policy]; a policy entry may be [None]. *)
Definition VTable := dict State float.
Definition QTable := dict (State * Action) float.
Definition Policy := dict State (option Action).

Inductive obj : Type :=
| VT (d : VTable)
| QT (d : QTable)
| PT (d : Policy).

#[local] Abbreviation heap := (list obj).

(** A computation runs from a heap to an outcome and the heap it leaves;
    an exception keeps the writes made before it. *)
Definition M (A : Type) : Type := heap -> result A * heap.

Definition ret {A} (a : A) : M A := fun h => (Ok a, h).

Definition bind {A B} (m : M A) (f : A -> M B) : M B :=
  fun h => match m h with
           | (Ok a, h') => f a h'
           | (Raise e, h') => (Raise e, h')
           end.

Definition raise {A} (e : exn) : M A := fun h => (Raise e, h).

Definition lift {A} (r : result A) : M A := fun h => (r, h).

Notation "'let*' x := m 'in' k" := (bind m (fun x => k))
  (at level 10, x name, m at level 100, k at level 200).
Notation "'let*' ' p := m 'in' k" :=
  (bind m (fun x => match x with p => k end))
  (at level 10, p pattern, m at level 100, k at level 200).

(** [for x in xs: body], the loop's local variables threaded as [s]. *)
Fixpoint for_fold {A S} (xs : list A) (body : A -> S -> M S) (s : S) : M S :=
  match xs with
  | [] => ret s
  | x :: xs' => let* s' := body x s in for_fold xs' body s'
  end.

(** [for x in xs: body], no local variable carried. *)
Definition for_ {A} (xs : list A) (body : A -> M unit) : M unit :=
  for_fold xs (fun x _ => body x) tt.

(** [(f(x) for x in xs)], consumed left to right. *)
Fixpoint map_m {A B} (f : A -> M B) (xs : list A) : M (list B) :=
  match xs with
  | [] => ret []
  | x :: xs' => let* y := f x in let* ys := map_m f xs' in ret (y :: ys)
  end.

(** *** Dictionary objects *)

Definition as_vtable (o : obj) : option VTable :=
  match o with VT d => Some d | _ => None end.
Definition as_qtable (o : obj) : option QTable :=
  match o with QT d => Some d | _ => None end.
Definition as_policy (o : obj) : option Policy :=
  match o with PT d => Some d | _ => None end.

(** [{}] (or a copy): a new object, at the first unused index. *)
Definition alloc (o : obj) : M ref := fun h => (Ok (length h), h ++ [o]).

Definition load {D} (proj : obj -> option D) (r : ref) : M D :=
  fun h => match h !! r ≫= proj with
           | Some d => (Ok d, h)
           | None => (Raise BadRef, h)
           end.

Definition store (r : ref) (o : obj) : M unit :=
  fun h => (Ok tt, <[r := o]> h).

Section Ops.
Context {K V : Type} `{EqDecision K}.
Variable proj : obj -> option (dict K V).
Variable inj : dict K V -> obj.

(** [d[k]] *)
Definition getitem (r : ref) (k : K) : M V :=
  let* d := load proj r in
  match dict_get d k with
  | Some v => ret v
  | None => raise KeyError
  end.

(** [d[k] = v] *)
Definition setitem (r : ref) (k : K) (v : V) : M unit :=
  let* d := load proj r in store r (inj (dict_set d k v)).

(** [k in d] *)
Definition contains (r : ref) (k : K) : M bool :=
  let* d := load proj r in ret (dict_mem d k).

(** The keys [for k in d] visits. *)
Definition keys (r : ref) : M (list K) :=
  let* d := load proj r in ret (dict_keys d).

(** [d.copy()] *)
Definition copy (r : ref) : M ref :=
  let* d := load proj r in alloc (inj d).
End Ops.

Definition v_getitem := getitem as_vtable.
Definition v_setitem := setitem as_vtable VT.
Definition v_contains := contains as_vtable.
Definition v_copy := copy as_vtable VT.
Definition q_getitem := getitem as_qtable.
Definition q_setitem := setitem as_qtable QT.
Definition q_contains := contains as_qtable.
Definition q_keys := keys as_qtable.
Definition p_setitem := setitem as_policy PT.

(** [max(xs)] of a sequence: [ValueError] when it is empty; an item
    replaces the running maximum when it is greater. *)
Definition py_max (xs : list float) : result float :=
  match xs with
  | [] => Raise ValueError
  | x :: xs' => Ok (fold_left py_max2 xs' x)
  end.

(** ** The MDP, as the module uses it ([toh_mdp.TohMdp]) *)

Record Config : Type := { gamma : float }.

Record TohMdp : Type := {
  config : Config;
  nonterminal_states : list State;
  actions : list Action;
  step : State -> Action -> State * float;
  reward : State -> Action -> State -> float;
  is_goal : State -> bool
}.

(** ** value_iteration (lines 8-47)

    The reward that [mdp.step] returns is bound and never used. *)

Definition value_iteration (mdp : TohMdp) (v_table : ref)
  : M (ref * ref * float) :=
  let* new_v_table := v_copy v_table in
  let* q_table := alloc (QT []) in
  let* max_delta :=
    for_fold (nonterminal_states mdp) (fun state max_delta =>
      let* _ :=
        for_ (actions mdp) (fun action =>
          let '(next_state, _) := step mdp state action in
          let* v := v_getitem new_v_table next_state in
          let q_value := 0.8 * (reward mdp state action next_state + v) in
          q_setitem q_table (state, action) q_value) in
      let* qs := map_m (fun action => q_getitem q_table (state, action))
                       (actions mdp) in
      let* m := lift (py_max qs) in
      let* _ := v_setitem new_v_table state m in
      let* new_v := v_getitem new_v_table state in
      let* old_v := v_getitem v_table state in
      ret (py_max2 max_delta (abs (new_v - old_v)))) 0 in
  ret (new_v_table, q_table, max_delta).

(** ** extract_policy (lines 50-80) *)

Definition extract_policy (mdp : TohMdp) (q_table : ref) : M ref :=
  let* policy := alloc (PT []) in
  let* _ :=
    for_ (nonterminal_states mdp) (fun state =>
      let* '(best_action, _) :=
        for_fold (actions mdp) (fun action '(best_action, best_q_value) =>
          let* present := q_contains q_table (state, action) in
          if present : bool then
            let* q_value := q_getitem q_table (state, action) in
            if py_gt q_value best_q_value
            then ret (Some action, q_value)
            else ret (best_action, best_q_value)
          else ret (best_action, best_q_value)) (None, neg_inf) in
      p_setitem policy state best_action) in
  ret policy.

(** ** q_update (lines 82-109) *)

Definition q_update (mdp : TohMdp) (q_table : ref)
    (transition : State * Action * float * State) (alpha : float) : M unit :=
  let '(state, action, reward, next_state) := transition in
  let* maxQ :=
    if negb (is_goal mdp state) then
      let* ks := q_keys q_table in
      for_fold ks (fun '(s, a) maxQ =>
        if decide (s = next_state) then
          let* v := q_getitem q_table (s, a) in
          if py_gt v maxQ then q_getitem q_table (s, a) else ret maxQ
        else ret maxQ) neg_inf
    else ret 0 in
  let gamma := gamma (config mdp) in
  let sample := reward + gamma * maxQ in
  let* old := q_getitem q_table (state, action) in
  q_setitem q_table (state, action) ((1 - alpha) * old + alpha * sample).

(** ** extract_v_table (lines 112-130) *)

Definition extract_v_table (mdp : TohMdp) (q_table : ref) : M ref :=
  let* v_table := alloc (VT []) in
  let* ks := q_keys q_table in
  let* _ :=
    for_ ks (fun '(s, a) =>
      let* present := v_contains v_table s in
      let* _ := if negb present then v_setitem v_table s neg_inf
                else ret tt in
      let* q := q_getitem q_table (s, a) in
      let* v := v_getitem v_table s in
      if py_gt q v
      then let* q' := q_getitem q_table (s, a) in v_setitem v_table s q'
      else ret tt) in
  ret v_table.

(** ** choose_next_action (lines 133-178) *)

(** The list [best] as it stands when [epsilon_greedy] is called; its
    first item is [best_action], [None] when no entry beat [-inf]. *)
Definition best_actions (mdp : TohMdp) (state : State) (q_table : ref)
  : M (list (option Action)) :=
  let best := [] in
  let* ks := q_keys q_table in
  let* '(best_action, best_Q) :=
    for_fold ks (fun '(s, a) '(best_action, best_Q) =>
      if decide (s = state) then
        let* v := q_getitem q_table (s, a) in
        if py_gt v best_Q
        then let* v' := q_getitem q_table (s, a) in ret (Some a, v')
        else ret (best_action, best_Q)
      else ret (best_action, best_Q)) (None, neg_inf) in
  let best := best ++ [best_action] in
  let* ks' := q_keys q_table in
  for_fold ks' (fun '(s, a) best =>
    if decide (s = state) then
      let* v := q_getitem q_table (s, a) in
      if py_eq v best_Q then ret (best ++ [Some a]) else ret best
    else ret best) best.

(** [epsilon_greedy] is the caller's: any function of the candidates and
    epsilon. *)
Definition choose_next_action {R : Type} (mdp : TohMdp) (state : State)
    (epsilon : float) (q_table : ref)
    (epsilon_greedy : list (option Action) -> float -> R) : M R :=
  let* best := best_actions mdp state q_table in
  ret (epsilon_greedy best epsilon).

(** The two loop bodies of [value_iteration], named for the proofs. *)
Definition vi_fill (mdp : TohMdp) (new_v_table q_table : ref)
    (state : State) (action : Action) : M unit :=
  let '(next_state, _) := step mdp state action in
  let* v := v_getitem new_v_table next_state in
  let q_value := 0.8 * (reward mdp state action next_state + v) in
  q_setitem q_table (state, action) q_value.

Definition vi_body (mdp : TohMdp) (v_table new_v_table q_table : ref)
    (state : State) (max_delta : float) : M float :=
  let* _ := for_ (actions mdp) (vi_fill mdp new_v_table q_table state) in
  let* qs := map_m (fun action => q_getitem q_table (state, action))
                   (actions mdp) in
  let* m := lift (py_max qs) in
  let* _ := v_setitem new_v_table state m in
  let* new_v := v_getitem new_v_table state in
  let* old_v := v_getitem v_table state in
  ret (py_max2 max_delta (abs (new_v - old_v))).

(** ** The caller's loop

    The driver is not part of the module; successive calls are
    [v_table, _, _ = value_iteration(mdp, v_table)], [n] times over. *)
Fixpoint iterate_value_iteration (mdp : TohMdp) (n : nat) (v_table : ref)
  : M ref :=
  match n with
  | O => ret v_table
  | S n' =>
      let* '(new_v_table, _, _) := value_iteration mdp v_table in
      iterate_value_iteration mdp n' new_v_table
  end.

End Solver.

Notation "'let*' x := m 'in' k" := (bind m (fun x => k))
  (at level 10, x name, m at level 100, k at level 200).
Notation "'let*' ' p := m 'in' k" :=
  (bind m (fun x => match x with p => k end))
  (at level 10, p pattern, m at level 100, k at level 200).

(** ** The schedules (lines 181-209) *)

(** What a call returns: the schedules are annotated [-> float] but hand
    back an [int] or nothing. *)
Inductive pyval : Type :=
| PyNone
| PyInt (z : Z)
| PyFloat (f : float).

Definition custom_epsilon (n_step : Z) : pyval := PyInt n_step.

(** The body is the docstring alone: the call returns [None]. *)
Definition custom_alpha (n_step : Z) : pyval := PyNone.

(** A number in [[0, 1]]; an [int] counts by its value. *)
Definition in_closed_unit (x : pyval) : Prop :=
  match x with
  | PyFloat f => (0 <=? f) && (f <=? 1) = true
  | PyInt z => (0 <= z <= 1)%Z
  | PyNone => False
  end.

(** A number in [(0, 1]]. *)
Definition in_half_open_unit (x : pyval) : Prop :=
  match x with
  | PyFloat f => (0 <? f) && (f <=? 1) = true
  | PyInt z => (0 < z <= 1)%Z
  | PyNone => False
  end.

(** ** Keys for the order of floats

    Every float but NaN has a key in [Z * Z * Z]; the keys are compared
    lexicographically. *)

Section FloatKeys.
#[local] Open Scope Z_scope.

Definition sf_key (f : spec_float) : option (Z * Z * Z) :=
  match f with
  | S754_nan => None
  | S754_infinity true => Some (-2, 0, 0)
  | S754_infinity false => Some (2, 0, 0)
  | S754_zero _ => Some (0, 0, 0)
  | S754_finite true m e => Some (-1, - e, Zneg m)
  | S754_finite false m e => Some (1, e, Zpos m)
  end.

Definition lex_compare (a b : Z * Z * Z) : comparison :=
  let '(a1, a2, a3) := a in
  let '(b1, b2, b3) := b in
  match a1 ?= b1 with
  | Eq => match a2 ?= b2 with Eq => a3 ?= b3 | c => c end
  | c => c
  end.

Definition lex_lt (a b : Z * Z * Z) : Prop :=
  let '(a1, a2, a3) := a in
  let '(b1, b2, b3) := b in
  a1 < b1 \/ (a1 = b1 /\ (a2 < b2 \/ (a2 = b2 /\ a3 < b3))).

End FloatKeys.

Definition float_key (x : float) := sf_key (Prim2SF x).

(** ** Heap invariants of the proofs *)

Section Invariants.
Context {State Action : Type} `{EqDecision State} `{EqDecision Action}.
#[local] Abbreviation heap := (list (obj (State := State) (Action := Action))).
#[local] Abbreviation M := (M (State := State) (Action := Action)).
#[local] Abbreviation TohMdp := (TohMdp (State := State) (Action := Action)).
#[local] Abbreviation VTable := (VTable (State := State)).
#[local] Abbreviation QTable := (QTable (State := State) (Action := Action)).
Implicit Types (mdp : TohMdp) (h : heap) (v : ref) (V NV : VTable) (Q : QTable).

(** A property of the heap that a computation keeps, whatever its
    outcome. *)
Definition preserves {A} (P : heap -> Prop) (m : M A) : Prop :=
  forall h, P h -> P (snd (m h)).

(** What the sweep keeps true of the heap, from the heap [h0] of the call
    on: the objects of [h0] are as they were, the copy is a value table
    satisfying [Inv], the new Q-table is a Q-table. *)
Definition vi_heap (Inv : VTable -> Prop) (h0 h : heap) : Prop :=
  (forall l o, h0 !! l = Some o -> h !! l = Some o) /\
  (exists NV : VTable, h !! length h0 = Some (VT NV) /\ Inv NV) /\
  (exists Q : QTable, h !! S (length h0) = Some (QT Q)).

(** The value table covers the nonterminal states and every successor,
    and there is an action to maximise over. *)
Definition vi_well_formed mdp V : Prop :=
  actions mdp <> [] /\
  (forall s, In s (nonterminal_states mdp) -> In s (dict_keys V)) /\
  (forall s a, In s (nonterminal_states mdp) -> In a (actions mdp) ->
               In (fst (step mdp s a)) (dict_keys V)).

Definition same_keys V NV : Prop :=
  forall k, In k (dict_keys NV) <-> In k (dict_keys V).

(** The heap during a sweep started from [h0 !! v = VT V]. *)
Definition vi_live (n v : ref) V (h : heap) : Prop :=
  h !! v = Some (VT V) /\
  (exists NV, h !! n = Some (VT NV) /\ same_keys V NV) /\
  (exists Q, h !! S n = Some (QT Q)).

End Invariants.

(** ** Small MDPs to run the functions on *)

Module Toy.
Inductive state : Set := A | B | T.
Inductive action : Set := move | stay.

#[global] Instance state_eq_dec : EqDecision state.
Proof. solve_decision. Defined.
#[global] Instance action_eq_dec : EqDecision action.
Proof. solve_decision. Defined.

(** One nonterminal state, one action, into the terminal state for a
    reward of 10. *)
Definition one_step (g : float) : TohMdp := {|
  config := {| gamma := g |};
  nonterminal_states := [A];
  actions := [move];
  step := fun _ _ => (T, 10);
  reward := fun _ _ _ => 10;
  is_goal := fun _ => false
|}.

(** Two nonterminal states that lead to each other, reward 1. *)
Definition two_cycle : TohMdp := {|
  config := {| gamma := 0.8 |};
  nonterminal_states := [A; B];
  actions := [move];
  step := fun s _ => match s with A => (B, 1) | _ => (A, 1) end;
  reward := fun _ _ _ => 1;
  is_goal := fun _ => false
|}.

(** [A] is a goal state; two actions. *)
Definition goal_at_A : TohMdp := {|
  config := {| gamma := 0.8 |};
  nonterminal_states := [A; B];
  actions := [move; stay];
  step := fun s a => match a with move => (T, 10) | stay => (s, 0) end;
  reward := fun _ _ _ => 0;
  is_goal := fun s => match s with A => true | _ => false end
|}.

Abbreviation heap := (list (obj (State := state) (Action := action))).
End Toy.

(** ** The loops read as folds *)

Section Folds.
Context {State Action : Type} `{EqDecision State} `{EqDecision Action}.
#[local] Abbreviation TohMdp := (TohMdp (State := State) (Action := Action)).
#[local] Abbreviation VTable := (VTable (State := State)).
#[local] Abbreviation QTable := (QTable (State := State) (Action := Action)).
#[local] Abbreviation Policy := (Policy (State := State) (Action := Action)).

(** The running maximum of a loop [if v > m: m = v], started at [m0]. *)
Definition run_max (vs : list float) (m0 : float) : float :=
  fold_left (fun m v => if py_gt v m then v else m) vs m0.

(** The values [Q(s, a)] of the keys of [ks] whose state is [s], in the
    order of [ks]. *)
Definition values_at (Q : QTable) (s : State) (ks : list (State * Action))
  : list float :=
  flat_map (fun k => if decide (fst k = s)
                     then match dict_get Q k with Some v => [v] | None => [] end
                     else []) ks.

(** [m] is the maximum of the [Q(s, a)] present in [Q], as a loop started
    at [-inf] finds it: no entry of [s] is greater than [m], and [m] is one
    of them, or is [-inf] when none is greater than [-inf]. *)
Definition is_max_at (Q : QTable) (s : State) (m : float) : Prop :=
  (forall a v, dict_get Q (s, a) = Some v -> py_gt v m = false) /\
  ((exists a, dict_get Q (s, a) = Some m) \/ m = neg_inf).

(** The loop of [q_update] over the keys of the table. *)
Definition next_max_step (Q : QTable) (next_state : State)
    (k : State * Action) (maxQ : float) : float :=
  let '(s, a) := k in
  if decide (s = next_state) then
    match dict_get Q (s, a) with
    | Some v => if py_gt v maxQ then v else maxQ
    | None => maxQ
    end
  else maxQ.

Definition next_max (Q : QTable) (next_state : State) : float :=
  fold_left (fun maxQ k => next_max_step Q next_state k maxQ)
    (dict_keys Q) neg_inf.

(** [maxQ] at the update: 0 at a goal state, the loop's result otherwise. *)
Definition bootstrap (mdp : TohMdp) (Q : QTable) (state next_state : State)
  : float :=
  if is_goal mdp state then 0 else next_max Q next_state.

(** The loop of [extract_policy] over the actions, for one state. *)
Definition greedy_step (Q : QTable) (state : State) (action : Action)
    (best : option Action * float) : option Action * float :=
  let '(best_action, best_q_value) := best in
  if dict_mem Q (state, action) then
    match dict_get Q (state, action) with
    | Some q_value =>
        if py_gt q_value best_q_value then (Some action, q_value)
        else (best_action, best_q_value)
    | None => (best_action, best_q_value)
    end
  else (best_action, best_q_value).

Definition greedy (Q : QTable) (state : State) (acts : list Action)
    (best : option Action * float) : option Action * float :=
  fold_left (fun best action => greedy_step Q state action best) acts best.

(** The dictionary [extract_policy] builds. *)
Definition policy_of (mdp : TohMdp) (Q : QTable) : Policy :=
  fold_left
    (fun P state =>
       dict_set P state (fst (greedy Q state (actions mdp) (None, neg_inf))))
    (nonterminal_states mdp) [].

(** One round of the loop of [extract_v_table]. *)
Definition ev_step (Q : QTable) (k : State * Action) (V : VTable) : VTable :=
  let '(s, a) := k in
  let V1 := if negb (dict_mem V s) then dict_set V s neg_inf else V in
  match dict_get Q (s, a), dict_get V1 s with
  | Some q, Some v => if py_gt q v then dict_set V1 s q else V1
  | _, _ => V1
  end.

(** The dictionary [extract_v_table] builds. *)
Definition v_table_of (Q : QTable) : VTable :=
  fold_left (fun V k => ev_step Q k V) (dict_keys Q) [].

(** The first loop of [choose_next_action]: the best pair so far. *)
Definition best_step (Q : QTable) (state : State) (k : State * Action)
    (best : option Action * float) : option Action * float :=
  let '(s, a) := k in
  let '(best_action, best_Q) := best in
  if decide (s = state) then
    match dict_get Q (s, a) with
    | Some v => if py_gt v best_Q then (Some a, v) else (best_action, best_Q)
    | None => (best_action, best_Q)
    end
  else (best_action, best_Q).

(** Its second loop: the actions whose value equals [best_Q] are appended. *)
Definition ties_step (Q : QTable) (state : State) (best_Q : float)
    (k : State * Action) (best : list (option Action))
  : list (option Action) :=
  let '(s, a) := k in
  if decide (s = state) then
    match dict_get Q (s, a) with
    | Some v => if py_eq v best_Q then best ++ [Some a] else best
    | None => best
    end
  else best.

(** The list [choose_next_action] hands to [epsilon_greedy]. *)
Definition candidates (Q : QTable) (state : State) : list (option Action) :=
  let '(best_action, best_Q) :=
    fold_left (fun best k => best_step Q state k best) (dict_keys Q)
      (None, neg_inf) in
  fold_left (fun best k => ties_step Q state best_Q k best) (dict_keys Q)
    ([] ++ [best_action]).

End Folds.

(** ** The sweep of value_iteration read as a fold

    On a table that covers the nonterminal states and their successors no
    lookup of the sweep fails; the defaults below stand for the lookups
    that cannot fail there. *)

Section Sweep.
Context {State Action : Type} `{EqDecision State} `{EqDecision Action}.
#[local] Abbreviation TohMdp := (TohMdp (State := State) (Action := Action)).
#[local] Abbreviation VTable := (VTable (State := State)).
#[local] Abbreviation QTable := (QTable (State := State) (Action := Action)).

(** Line 39, with the table [NV] the sweep has reached. *)
Definition q_value_of (mdp : TohMdp) (NV : VTable) (state : State)
    (action : Action) : float :=
  let '(next_state, _) := step mdp state action in
  0.8 * (reward mdp state action next_state
         + default 0 (dict_get NV next_state)).

(** Lines 37-40: the Q-values of one state. *)
Definition fill_q (mdp : TohMdp) (NV : VTable) (state : State) (Q : QTable)
  : QTable :=
  fold_left
    (fun Q action => dict_set Q (state, action) (q_value_of mdp NV state action))
    (actions mdp) Q.

(** Line 43: [max(q_table[(state, action)] for action in mdp.actions)]. *)
Definition max_q (mdp : TohMdp) (Q : QTable) (state : State) : float :=
  match py_max (map (fun action => default 0 (dict_get Q (state, action)))
                    (actions mdp)) with
  | Ok m => m
  | Raise _ => 0
  end.

(** Lines 36-46: one round of the loop over the states; [V] is the input
    table. *)
Definition sweep_state (mdp : TohMdp) (V : VTable)
    (acc : VTable * QTable * float) (state : State)
  : VTable * QTable * float :=
  let '(NV, Q, max_delta) := acc in
  let Q' := fill_q mdp NV state Q in
  let NV' := dict_set NV state (max_q mdp Q' state) in
  (NV', Q',
   py_max2 max_delta
     (abs (default 0 (dict_get NV' state) - default 0 (dict_get V state)))).

Definition sweep_from (mdp : TohMdp) (V : VTable) (states : list State)
    (acc : VTable * QTable * float) : VTable * QTable * float :=
  fold_left (sweep_state mdp V) states acc.

(** The three results of [value_iteration] on the input table [V]. *)
Definition sweep (mdp : TohMdp) (V : VTable) : VTable * QTable * float :=
  sweep_from mdp V (nonterminal_states mdp) (V, [], 0).

End Sweep.

(** ** More small MDPs *)

Module ToyMore.

(** A nonterminal state and no action at all. *)
Definition no_actions : TohMdp := {|
  config := {| gamma := 0.8 |};
  nonterminal_states := [Toy.A];
  actions := @nil Toy.action;
  step := fun s _ => (s, 0);
  reward := fun _ _ _ => 0;
  is_goal := fun _ => false
|}.

(** Value tables for [Toy.one_step] and [Toy.two_cycle]. *)
Definition v_AT : VTable (State := Toy.state) := [(Toy.A, 0); (Toy.T, 0)].
Definition v_ABT : VTable (State := Toy.state) :=
  [(Toy.A, 0); (Toy.B, 0); (Toy.T, 0)].

(** [V(A) = 0.8 * (10 + V(T))]: a fixed point for [Toy.one_step]. *)
Definition v_fixed : VTable (State := Toy.state) := [(Toy.A, 8); (Toy.T, 0)].

(** No entry for the terminal state. *)
Definition v_A : VTable (State := Toy.state) := [(Toy.A, 0)].

(** Heaps that hold one of these tables. *)
Definition h_AT : Toy.heap := [VT v_AT].
Definition h_ABT : Toy.heap := [VT v_ABT].
Definition h_fixed : Toy.heap := [VT v_fixed].
Definition h_A : Toy.heap := [VT v_A].

(** A Q-table with two tied entries for B and one for A. *)
Definition q_ties : QTable (State := Toy.state) (Action := Toy.action) :=
  [((Toy.B, Toy.stay), 1); ((Toy.A, Toy.move), 5); ((Toy.B, Toy.move), 1)].

Definition h_ties : Toy.heap := [QT q_ties].

End ToyMore.

(** * Properties *)

(** ** Dictionaries *)

Section DictFacts.
Context {K V : Type} `{EqDecision K}.
Implicit Types (d : dict K V) (k : K) (v : V).

Lemma dict_get_set_eq d k v : dict_get (dict_set d k v) k = Some v.
Proof.
  induction d as [|[k' v'] d IH]; simpl.
  - destruct (decide (k = k)); congruence.
  - destruct (decide (k' = k)) as [->|Hne]; simpl.
    + destruct (decide (k = k)); congruence.
    + destruct (decide (k' = k)); congruence.
Qed.

Lemma dict_get_set_ne d k k' v :
  k <> k' -> dict_get (dict_set d k v) k' = dict_get d k'.
Proof.
  intros Hne. induction d as [|[k0 v0] d IH]; simpl.
  - destruct (decide (k = k')); congruence.
  - destruct (decide (k0 = k)) as [->|Hk]; simpl.
    + destruct (decide (k = k')); congruence.
    + destruct (decide (k0 = k')); congruence.
Qed.

Lemma dict_get_set d k k' v :
  dict_get (dict_set d k v) k' =
  if decide (k = k') then Some v else dict_get d k'.
Proof.
  destruct (decide (k = k')) as [->|Hne].
  - apply dict_get_set_eq.
  - now apply dict_get_set_ne.
Qed.

Lemma dict_mem_true d k : dict_mem d k = true <-> In k (dict_keys d).
Proof.
  unfold dict_mem, dict_keys.
  induction d as [|[k' v'] d IH]; simpl.
  - split; [discriminate | tauto].
  - destruct (decide (k' = k)) as [->|Hne].
    + split; auto.
    + rewrite IH. split; [tauto | intros [?|?]; [congruence | assumption]].
Qed.

Lemma dict_get_Some_keys d k v : dict_get d k = Some v -> In k (dict_keys d).
Proof.
  intros Hg. apply dict_mem_true. unfold dict_mem. now rewrite Hg.
Qed.

Lemma dict_keys_get d k : In k (dict_keys d) -> exists v, dict_get d k = Some v.
Proof.
  intros Hin. apply dict_mem_true in Hin. unfold dict_mem in Hin.
  destruct (dict_get d k) as [v|]; [now exists v | discriminate].
Qed.

(** Writing a key changes the key set by at most that key. *)
Lemma dict_keys_set d k v k' :
  In k' (dict_keys (dict_set d k v)) <-> k' = k \/ In k' (dict_keys d).
Proof.
  rewrite <- !dict_mem_true. unfold dict_mem. rewrite dict_get_set.
  destruct (decide (k = k')) as [->|Hne].
  - split; auto.
  - split; [auto | intros [->|?]; [congruence | assumption]].
Qed.

(** Keys stay pairwise distinct. *)
Lemma dict_set_NoDup d k v :
  List.NoDup (dict_keys d) -> List.NoDup (dict_keys (dict_set d k v)).
Proof.
  unfold dict_keys.
  induction d as [|[k' v'] d IH]; simpl; intros Hnd.
  - constructor; [intros [] | constructor].
  - inversion Hnd as [|? ? Hnin Hnd']; subst.
    destruct (decide (k' = k)) as [->|Hne]; simpl.
    + now constructor.
    + constructor; [|now apply IH].
      intros Hin. apply Hnin.
      apply (dict_keys_set d k v k') in Hin. destruct Hin as [->|Hin]; [congruence|exact Hin].
Qed.
End DictFacts.

(** ** The order of floats

    [<?] and [=?] are specified through [SFcompare] on the decoded float.
    Every float but NaN has a key in [Z * Z * Z], and [SFcompare] is the
    lexicographic comparison of the keys. *)

Section FloatOrder.
#[local] Open Scope Z_scope.

Lemma SFcompare_key f1 f2 :
  SFcompare f1 f2 =
  match sf_key f1, sf_key f2 with
  | Some k1, Some k2 => Some (lex_compare k1 k2)
  | _, _ => None
  end.
Proof.
  destruct f1 as [s1|[|]| |[|] m1 e1], f2 as [s2|[|]| |[|] m2 e2];
    try reflexivity; simpl.
  rewrite Z.compare_opp, (Z.compare_antisym e1 e2).
  destruct (e1 ?= e2); reflexivity.
Qed.

Lemma lex_compare_Lt a b : lex_compare a b = Lt <-> lex_lt a b.
Proof.
  destruct a as [[a1 a2] a3], b as [[b1 b2] b3]. simpl.
  destruct (Z.compare_spec a1 b1), (Z.compare_spec a2 b2), (Z.compare_spec a3 b3);
    split; intros; try discriminate; try lia; try reflexivity.
Qed.

Lemma lex_compare_Eq a b : lex_compare a b = Eq <-> a = b.
Proof.
  destruct a as [[a1 a2] a3], b as [[b1 b2] b3]. simpl.
  destruct (Z.compare_spec a1 b1), (Z.compare_spec a2 b2), (Z.compare_spec a3 b3);
    split; intros Heq; try discriminate; try reflexivity; try (inversion Heq; lia).
  congruence.
Qed.

Lemma lex_lt_irrefl a : ~ lex_lt a a.
Proof. destruct a as [[a1 a2] a3]. simpl. lia. Qed.

Lemma lex_lt_trans a b c : lex_lt a b -> lex_lt b c -> lex_lt a c.
Proof.
  destruct a as [[a1 a2] a3], b as [[b1 b2] b3], c as [[c1 c2] c3]. simpl. lia.
Qed.

Lemma SFltb_key f1 f2 :
  SFltb f1 f2 = true <->
  exists k1 k2, sf_key f1 = Some k1 /\ sf_key f2 = Some k2 /\ lex_lt k1 k2.
Proof.
  unfold SFltb. rewrite SFcompare_key.
  destruct (sf_key f1) as [k1|], (sf_key f2) as [k2|].
  - split.
    + intros Hc. exists k1, k2. repeat split. apply lex_compare_Lt.
      now destruct (lex_compare k1 k2).
    + intros (k1' & k2' & [= <-] & [= <-] & Hlt).
      apply lex_compare_Lt in Hlt. now rewrite Hlt.
  - split; [discriminate | intros (? & ? & _ & [=] & _)].
  - split; [discriminate | intros (? & ? & [=] & _)].
  - split; [discriminate | intros (? & ? & [=] & _)].
Qed.

Lemma SFeqb_key f1 f2 :
  SFeqb f1 f2 = true <-> exists k, sf_key f1 = Some k /\ sf_key f2 = Some k.
Proof.
  unfold SFeqb. rewrite SFcompare_key.
  destruct (sf_key f1) as [k1|], (sf_key f2) as [k2|].
  - split.
    + intros Hc. exists k1. split; [reflexivity|]. f_equal. symmetry.
      apply lex_compare_Eq. now destruct (lex_compare k1 k2).
    + intros (k & [= ->] & [= ->]).
      now rewrite (proj2 (lex_compare_Eq k k) eq_refl).
  - split; [discriminate | intros (? & _ & [=])].
  - split; [discriminate | intros (? & [=] & _)].
  - split; [discriminate | intros (? & [=] & _)].
Qed.

End FloatOrder.

Lemma float_ltb_key x y :
  (x <? y) = true <->
  exists k1 k2, float_key x = Some k1 /\ float_key y = Some k2 /\ lex_lt k1 k2.
Proof. rewrite FloatAxioms.ltb_spec. apply SFltb_key. Qed.

Lemma float_eqb_key x y :
  (x =? y) = true <-> exists k, float_key x = Some k /\ float_key y = Some k.
Proof. rewrite FloatAxioms.eqb_spec. apply SFeqb_key. Qed.

Lemma float_ltb_irrefl x : (x <? x) = false.
Proof.
  apply not_true_is_false. rewrite float_ltb_key.
  intros (k1 & k2 & H1 & H2 & Hlt). rewrite H1 in H2. injection H2 as <-.
  now apply lex_lt_irrefl in Hlt.
Qed.

Lemma float_ltb_trans x y z : (x <? y) = true -> (y <? z) = true -> (x <? z) = true.
Proof.
  rewrite !float_ltb_key.
  intros (k1 & k2 & H1 & H2 & Hlt) (k2' & k3 & H2' & H3 & Hlt').
  rewrite H2 in H2'. injection H2' as <-.
  exists k1, k3. eauto using lex_lt_trans.
Qed.

Lemma float_ltb_asym x y : (x <? y) = true -> (y <? x) = false.
Proof.
  intros Hxy. apply not_true_is_false. intros Hyx.
  pose proof (float_ltb_trans _ _ _ Hxy Hyx) as Hxx. now rewrite float_ltb_irrefl in Hxx.
Qed.

Lemma float_ltb_eqb_r x y z : (x <? y) = true -> (y =? z) = true -> (x <? z) = true.
Proof.
  rewrite !float_ltb_key, float_eqb_key.
  intros (k1 & k2 & H1 & H2 & Hlt) (k & H2' & H3).
  rewrite H2 in H2'. injection H2' as <-. exists k1, k2. auto.
Qed.

Lemma float_eqb_sym x y : (x =? y) = true -> (y =? x) = true.
Proof. rewrite !float_eqb_key. intros (k & H1 & H2). eauto. Qed.

Lemma float_ltb_not_eqb x y : (x <? y) = true -> (x =? y) = false.
Proof.
  intros Hlt. apply not_true_is_false. intros Heq.
  pose proof (float_ltb_eqb_r _ _ _ Hlt (float_eqb_sym _ _ Heq)) as Hxx.
  now rewrite float_ltb_irrefl in Hxx.
Qed.

Lemma float_ltb_eqb_refl_r x y : (x <? y) = true -> (y =? y) = true.
Proof.
  rewrite float_ltb_key, float_eqb_key. intros (k1 & k2 & _ & H2 & _). eauto.
Qed.

Lemma neg_infinity_least x :
  (x =? x) = true -> (neg_infinity <? x) = false -> x = neg_infinity.
Proof.
  rewrite float_eqb_key. intros (k & Hk & _) Hlt.
  apply Prim2SF_inj.
  assert (Hn : ~ lex_lt (-2, 0, 0)%Z k).
  { intros Hl. rewrite (proj2 (float_ltb_key neg_infinity x)) in Hlt; [discriminate|].
    exists (-2, 0, 0)%Z, k. split; [reflexivity | split; [exact Hk | exact Hl]]. }
  unfold float_key in Hk.
  change (Prim2SF neg_infinity) with (S754_infinity true).
  destruct (Prim2SF x) as [s|[|]| |[|] m e]; simpl in Hk; try discriminate;
    injection Hk as <-; try reflexivity; exfalso; apply Hn; simpl; lia.
Qed.

(** ** Running computations on the heap *)

Section HeapFacts.
Context {State Action : Type} `{EqDecision State} `{EqDecision Action}.
#[local] Abbreviation heap := (list (obj (State := State) (Action := Action))).
Implicit Types (P : heap -> Prop).
#[local] Abbreviation obj := (obj (State := State) (Action := Action)).
#[local] Abbreviation M := (M (State := State) (Action := Action)).

Lemma bind_run {A B} (m : M A) (f : A -> M B) h :
  bind m f h = match m h with
               | (Ok a, h') => f a h'
               | (Raise e, h') => (Raise e, h')
               end.
Proof. reflexivity. Qed.

Lemma bind_ok {A B} (m : M A) (f : A -> M B) h a h' :
  m h = (Ok a, h') -> bind m f h = f a h'.
Proof. intros Hm. rewrite bind_run, Hm. reflexivity. Qed.

Section OpsFacts.
Context {K V : Type} `{EqDecision K}.
Variable proj : obj -> option (dict K V).
Variable inj : dict K V -> obj.

Lemma load_run r (h : heap) o d :
  h !! r = Some o -> proj o = Some d -> load proj r h = (Ok d, h).
Proof. intros Hr Hp. unfold load. rewrite Hr. simpl. now rewrite Hp. Qed.

Lemma load_fail r (h : heap) :
  h !! r ≫= proj = None -> load proj r h = (Raise BadRef, h).
Proof. intros Hr. unfold load. now rewrite Hr. Qed.

Lemma getitem_run r k (h : heap) o d :
  h !! r = Some o -> proj o = Some d ->
  getitem proj r k h =
  (match dict_get d k with Some v => Ok v | None => Raise KeyError end, h).
Proof.
  intros Hr Hp. unfold getitem.
  rewrite (bind_ok _ _ _ _ _ (load_run _ _ _ _ Hr Hp)).
  now destruct (dict_get d k).
Qed.

Lemma setitem_run r k v (h : heap) o d :
  h !! r = Some o -> proj o = Some d ->
  setitem proj inj r k v h = (Ok tt, <[r := inj (dict_set d k v)]> h).
Proof.
  intros Hr Hp. unfold setitem.
  now rewrite (bind_ok _ _ _ _ _ (load_run _ _ _ _ Hr Hp)).
Qed.

Lemma contains_run r k (h : heap) o d :
  h !! r = Some o -> proj o = Some d ->
  contains proj r k h = (Ok (dict_mem d k), h).
Proof.
  intros Hr Hp. unfold contains.
  now rewrite (bind_ok _ _ _ _ _ (load_run _ _ _ _ Hr Hp)).
Qed.

Lemma keys_run r (h : heap) o d :
  h !! r = Some o -> proj o = Some d ->
  keys proj r h = (Ok (dict_keys d), h).
Proof.
  intros Hr Hp. unfold keys.
  now rewrite (bind_ok _ _ _ _ _ (load_run _ _ _ _ Hr Hp)).
Qed.

Lemma copy_run r (h : heap) o d :
  h !! r = Some o -> proj o = Some d ->
  copy proj inj r h = (Ok (length h), h ++ [inj d]).
Proof.
  intros Hr Hp. unfold copy.
  now rewrite (bind_ok _ _ _ _ _ (load_run _ _ _ _ Hr Hp)).
Qed.

(** Reading leaves the heap as it is, whatever the outcome. *)
Lemma getitem_heap r k (h : heap) : snd (getitem proj r k h) = h.
Proof.
  unfold getitem, bind, load. destruct (h !! r ≫= proj) as [d|]; [|reflexivity].
  now destruct (dict_get d k).
Qed.

(** A write changes the object at its reference only, and only when
    that object is a table of the right kind. *)
Lemma setitem_heap r k v (h : heap) :
  snd (setitem proj inj r k v h) =
  match h !! r ≫= proj with
  | Some d => <[r := inj (dict_set d k v)]> h
  | None => h
  end.
Proof. unfold setitem, bind, load. now destruct (h !! r ≫= proj). Qed.
End OpsFacts.

(** *** Heap properties kept by a computation, whatever its outcome *)

Lemma preserves_ret {A} P (a : A) : preserves P (ret a).
Proof. intros h Hh. exact Hh. Qed.

Lemma preserves_lift {A} P (r : result A) : preserves P (lift r).
Proof. intros h Hh. exact Hh. Qed.

Lemma preserves_bind {A B} P (m : M A) (f : A -> M B) :
  preserves P m -> (forall a, preserves P (f a)) -> preserves P (bind m f).
Proof.
  intros Hm Hf h Hh. specialize (Hm h Hh). rewrite bind_run.
  destruct (m h) as [[a|e] h']; simpl in *; [now apply Hf | exact Hm].
Qed.

Lemma preserves_for_fold {A S} P (xs : list A) (body : A -> S -> M S) :
  (forall x s, In x xs -> preserves P (body x s)) ->
  forall s, preserves P (for_fold xs body s).
Proof.
  induction xs as [|x xs IH]; intros Hbody s; simpl.
  - apply preserves_ret.
  - apply preserves_bind.
    + apply Hbody. now left.
    + intros s'. apply IH. intros y t Hy. apply Hbody. now right.
Qed.

Lemma preserves_for_ {A} P (xs : list A) (body : A -> M unit) :
  (forall x, In x xs -> preserves P (body x)) -> preserves P (for_ xs body).
Proof. intros Hbody. apply preserves_for_fold. intros x _. apply Hbody. Qed.

Lemma preserves_map_m {A B} P (f : A -> M B) (xs : list A) :
  (forall x, In x xs -> preserves P (f x)) -> preserves P (map_m f xs).
Proof.
  induction xs as [|x xs IH]; intros Hf; simpl.
  - apply preserves_ret.
  - apply preserves_bind; [apply Hf; now left|].
    intros y. apply preserves_bind; [|intros ys; apply preserves_ret].
    apply IH. intros z Hz. apply Hf. now right.
Qed.

Lemma preserves_getitem {K V} `{EqDecision K} P
    (proj : obj -> option (dict K V)) r k :
  preserves P (getitem proj r k).
Proof. intros h Hh. now rewrite getitem_heap. Qed.

Lemma preserves_setitem {K V} `{EqDecision K} (P : heap -> Prop)
    (proj : obj -> option (dict K V)) inj r k v :
  (forall h d, P h -> h !! r ≫= proj = Some d ->
               P (<[r := inj (dict_set d k v)]> h)) ->
  preserves P (setitem proj inj r k v).
Proof.
  intros Hset h Hh. rewrite setitem_heap.
  destruct (h !! r ≫= proj) as [d|] eqn:Hr; [now apply Hset | exact Hh].
Qed.

(** *** Loops that only read *)

Lemma for_fold_pure {A S} (xs : list A) (body : A -> S -> M S)
    (f : A -> S -> S) (h : heap) :
  (forall x s, In x xs -> body x s h = (Ok (f x s), h)) ->
  forall s, for_fold xs body s h = (Ok (fold_left (fun s x => f x s) xs s), h).
Proof.
  induction xs as [|x xs IH]; intros Hbody s; simpl; [reflexivity|].
  rewrite (bind_ok _ _ _ _ _ (Hbody x s (or_introl eq_refl))).
  apply IH. intros y t Hy. apply Hbody. now right.
Qed.

Lemma map_m_pure {A B} (f : A -> M B) (g : A -> B) (xs : list A) (h : heap) :
  (forall x, In x xs -> f x h = (Ok (g x), h)) ->
  map_m f xs h = (Ok (map g xs), h).
Proof.
  induction xs as [|x xs IH]; intros Hf; simpl; [reflexivity|].
  rewrite (bind_ok _ _ _ _ _ (Hf x (or_introl eq_refl))).
  rewrite (bind_ok _ _ _ _ _ (IH (fun y Hy => Hf y (or_intror Hy)))).
  reflexivity.
Qed.

(** *** Loops that succeed *)

(** The invariant [I] is indexed by the items already visited. *)
Lemma for_fold_total {A S} (I : list A -> S -> heap -> Prop)
    (xs : list A) (body : A -> S -> M S) :
  (forall pre x s h, (exists post, xs = pre ++ x :: post) -> I pre s h ->
     exists s' h', body x s h = (Ok s', h') /\ I (pre ++ [x]) s' h') ->
  forall s h, I [] s h ->
    exists s' h', for_fold xs body s h = (Ok s', h') /\ I xs s' h'.
Proof.
  intros Hbody.
  assert (Hgen : forall post pre s h, xs = pre ++ post -> I pre s h ->
            exists s' h', for_fold post body s h = (Ok s', h') /\ I xs s' h').
  { induction post as [|x post IH]; intros pre s h Hxs HI; simpl.
    - rewrite app_nil_r in Hxs. subst pre. now exists s, h.
    - destruct (Hbody pre x s h (ex_intro _ post Hxs) HI) as (s1 & h1 & Hrun & HI1).
      rewrite (bind_ok _ _ _ _ _ Hrun).
      apply (IH (pre ++ [x])); [|exact HI1].
      now rewrite <- app_assoc. }
  intros s h HI. now apply (Hgen xs []).
Qed.
End HeapFacts.

(** ** value_iteration *)

Section ValueIterationFacts.
Context {State Action : Type} `{EqDecision State} `{EqDecision Action}.
#[local] Abbreviation heap := (list (obj (State := State) (Action := Action))).
#[local] Abbreviation TohMdp := (TohMdp (State := State) (Action := Action)).
Implicit Types (mdp : TohMdp) (h : heap) (v : ref).

Lemma value_iteration_unfold mdp v :
  value_iteration mdp v =
  (let* nv := v_copy v in
   let* q := alloc (QT []) in
   let* d := for_fold (nonterminal_states mdp) (vi_body mdp v nv q) 0 in
   ret (nv, q, d)).
Proof. reflexivity. Qed.

(** With a live input table, the call allocates the copy and the empty
    Q-table at the next two indices and runs the sweep on them. *)
Lemma value_iteration_run mdp v h V :
  h !! v = Some (VT V) ->
  value_iteration mdp v h =
  match for_fold (nonterminal_states mdp)
          (vi_body mdp v (length h) (S (length h))) 0 (h ++ [VT V; QT []]) with
  | (Ok d, h') => (Ok (length h, S (length h), d), h')
  | (Raise e, h') => (Raise e, h')
  end.
Proof.
  intros Hv. rewrite value_iteration_unfold.
  unfold v_copy. rewrite (bind_ok _ _ _ _ _ (copy_run as_vtable VT v h _ V Hv eq_refl)).
  rewrite bind_run. unfold alloc at 1.
  replace (length (h ++ [VT V])) with (S (length h))
    by (rewrite length_app; simpl; lia).
  replace ((h ++ [VT V]) ++ [QT []]) with (h ++ [VT V; QT []])
    by (now rewrite <- app_assoc).
  rewrite bind_run.
  destruct (for_fold _ _ _ _) as [[d|e] h']; reflexivity.
Qed.

Lemma value_iteration_bad_ref mdp v h :
  h !! v ≫= as_vtable = None -> value_iteration mdp v h = (Raise BadRef, h).
Proof.
  intros Hv. rewrite value_iteration_unfold. unfold v_copy, copy.
  rewrite bind_run, bind_run, (load_fail _ _ _ Hv). reflexivity.
Qed.

Lemma vi_heap_init (Inv : VTable -> Prop) h0 (V : VTable) :
  Inv V -> vi_heap Inv h0 (h0 ++ [VT V; QT []]).
Proof.
  intros HV. repeat split.
  - intros l o Hl. now apply lookup_app_l_Some.
  - exists V. split; [|exact HV]. now apply list_lookup_middle.
  - exists []. etrans; [apply lookup_app_r; lia|].
    replace (S (length h0) - length h0)%nat with 1%nat by lia. reflexivity.
Qed.

Lemma vi_heap_set_q Inv h0 h (Q : QTable) k x :
  vi_heap Inv h0 h -> h !! S (length h0) ≫= as_qtable = Some Q ->
  vi_heap Inv h0 (<[S (length h0) := QT (dict_set Q k x)]> h).
Proof.
  intros (Hframe & (NV & Hnv & HInv) & (Q0 & Hq)) _. repeat split.
  - intros l o Hl. rewrite list_lookup_insert_ne; [now apply Hframe|].
    apply lookup_lt_Some in Hl. lia.
  - exists NV. split; [|exact HInv]. rewrite list_lookup_insert_ne; [exact Hnv | lia].
  - eexists. apply list_lookup_insert_eq. now apply lookup_lt_Some in Hq.
Qed.

Lemma vi_heap_set_v (Inv : VTable -> Prop) h0 h (NV : VTable) s x :
  (forall NV', Inv NV' -> Inv (dict_set NV' s x)) ->
  vi_heap Inv h0 h -> h !! length h0 ≫= as_vtable = Some NV ->
  vi_heap Inv h0 (<[length h0 := VT (dict_set NV s x)]> h).
Proof.
  intros Hclosed (Hframe & (NV0 & Hnv & HInv) & (Q0 & Hq)) Hload.
  rewrite Hnv in Hload. simpl in Hload. injection Hload as ->.
  repeat split.
  - intros l o Hl. rewrite list_lookup_insert_ne; [now apply Hframe|].
    apply lookup_lt_Some in Hl. lia.
  - eexists. split; [|apply Hclosed, HInv].
    apply list_lookup_insert_eq. now apply lookup_lt_Some in Hnv.
  - exists Q0. rewrite list_lookup_insert_ne; [exact Hq | lia].
Qed.

Lemma vi_body_preserves (Inv : VTable -> Prop) mdp v h0 state d :
  (forall NV x, Inv NV -> Inv (dict_set NV state x)) ->
  preserves (vi_heap Inv h0)
    (vi_body mdp v (length h0) (S (length h0)) state d).
Proof.
  intros Hclosed. unfold vi_body.
  apply preserves_bind.
  { apply preserves_for_. intros action _. unfold vi_fill.
    destruct (step mdp state action) as [next_state rw].
    apply preserves_bind; [apply preserves_getitem|].
    intros x. apply preserves_setitem. intros h Q. apply vi_heap_set_q. }
  intros _. apply preserves_bind.
  { apply preserves_map_m. intros action _. apply preserves_getitem. }
  intros qs. apply preserves_bind; [apply preserves_lift|].
  intros m. apply preserves_bind.
  { apply preserves_setitem. intros h NV. apply vi_heap_set_v.
    intros NV'. apply Hclosed. }
  intros _. apply preserves_bind; [apply preserves_getitem|].
  intros new_v. apply preserves_bind; [apply preserves_getitem|].
  intros old_v. apply preserves_ret.
Qed.

(** The heap a call leaves, whatever its outcome: for any property [Inv]
    of value tables that holds of the input table and that no write to a
    nonterminal state's entry breaks. *)
Lemma value_iteration_heap (Inv : VTable -> Prop) mdp v h (V : VTable) :
  h !! v = Some (VT V) ->
  Inv V ->
  (forall NV s x, In s (nonterminal_states mdp) -> Inv NV ->
                  Inv (dict_set NV s x)) ->
  vi_heap Inv h (snd (value_iteration mdp v h)) /\
  forall nv q d, fst (value_iteration mdp v h) = Ok (nv, q, d) ->
                 nv = length h /\ q = S (length h).
Proof.
  intros Hv HV Hclosed. rewrite (value_iteration_run _ _ _ _ Hv).
  pose proof (preserves_for_fold (vi_heap Inv h) (nonterminal_states mdp)
                (vi_body mdp v (length h) (S (length h)))) as Hloop.
  specialize (Hloop (fun s d Hs => vi_body_preserves Inv mdp v h s d
                                     (fun NV x => Hclosed NV s x Hs))).
  specialize (Hloop 0%float _ (vi_heap_init Inv h V HV)).
  destruct (for_fold _ _ _ _) as [[d|e] h']; simpl in *.
  - split; [exact Hloop|]. intros nv q d' [= <- <- _]. now split.
  - split; [exact Hloop|]. intros nv q d' [=].
Qed.

End ValueIterationFacts.

(** *** The sweep succeeds on a well-formed call *)

Section ValueIterationTotal.
Context {State Action : Type} `{EqDecision State} `{EqDecision Action}.
#[local] Abbreviation heap := (list (obj (State := State) (Action := Action))).
#[local] Abbreviation TohMdp := (TohMdp (State := State) (Action := Action)).
#[local] Abbreviation VTable := (VTable (State := State)).
#[local] Abbreviation QTable := (QTable (State := State) (Action := Action)).
#[local] Abbreviation Policy := (Policy (State := State) (Action := Action)).
Implicit Types (mdp : TohMdp) (h : heap) (v : ref) (V NV : VTable) (Q : QTable).

Lemma v_getitem_run h r V (k : State) :
  h !! r = Some (VT V) ->
  v_getitem r k h =
  (match dict_get V k with Some x => Ok x | None => Raise KeyError end, h).
Proof. intros Hr. now apply (getitem_run as_vtable r k h (VT V) V). Qed.

Lemma v_setitem_run h r V (k : State) x :
  h !! r = Some (VT V) ->
  v_setitem r k x h = (Ok tt, <[r := VT (dict_set V k x)]> h).
Proof. intros Hr. now apply (setitem_run as_vtable VT r k x h (VT V) V). Qed.

Lemma v_contains_run h r V (k : State) :
  h !! r = Some (VT V) -> v_contains r k h = (Ok (dict_mem V k), h).
Proof. intros Hr. now apply (contains_run as_vtable r k h (VT V) V). Qed.

Lemma q_getitem_run h r Q (k : State * Action) :
  h !! r = Some (QT Q) ->
  q_getitem r k h =
  (match dict_get Q k with Some x => Ok x | None => Raise KeyError end, h).
Proof. intros Hr. now apply (getitem_run as_qtable r k h (QT Q) Q). Qed.

Lemma q_setitem_run h r Q (k : State * Action) x :
  h !! r = Some (QT Q) ->
  q_setitem r k x h = (Ok tt, <[r := QT (dict_set Q k x)]> h).
Proof. intros Hr. now apply (setitem_run as_qtable QT r k x h (QT Q) Q). Qed.

Lemma q_contains_run h r Q (k : State * Action) :
  h !! r = Some (QT Q) -> q_contains r k h = (Ok (dict_mem Q k), h).
Proof. intros Hr. now apply (contains_run as_qtable r k h (QT Q) Q). Qed.

Lemma q_keys_run h r Q :
  h !! r = Some (QT Q) -> q_keys r h = (Ok (dict_keys Q), h).
Proof. intros Hr. now apply (keys_run as_qtable r h (QT Q) Q). Qed.

Lemma p_setitem_run h r (P : Policy) (k : State) (x : option Action) :
  h !! r = Some (PT P) ->
  p_setitem r k x h = (Ok tt, <[r := PT (dict_set P k x)]> h).
Proof. intros Hr. now apply (setitem_run as_policy PT r k x h (PT P) P). Qed.

Lemma vi_fill_loop_total mdp n v V NV state h Q :
  (v < n)%nat -> vi_well_formed mdp V -> In state (nonterminal_states mdp) ->
  same_keys V NV ->
  h !! v = Some (VT V) -> h !! n = Some (VT NV) -> h !! S n = Some (QT Q) ->
  exists h' Q',
    for_ (actions mdp) (vi_fill mdp n (S n) state) h = (Ok tt, h') /\
    h' !! v = Some (VT V) /\ h' !! n = Some (VT NV) /\
    h' !! S n = Some (QT Q') /\
    forall a, In a (actions mdp) -> In (state, a) (dict_keys Q').
Proof.
  intros Hvn (Hne & Hnt & Hsucc) Hstate Hkeys Hv Hn Hq.
  pose (I := fun (pre : list Action) (_ : unit) (h' : heap) =>
               h' !! v = Some (VT V) /\ h' !! n = Some (VT NV) /\
               exists Q', h' !! S n = Some (QT Q') /\
                          forall a, In a pre -> In (state, a) (dict_keys Q')).
  destruct (for_fold_total I (actions mdp)
              (fun x _ => vi_fill mdp n (S n) state x)) with (s := tt) (h := h)
    as (u & h' & Hrun & Hv' & Hn' & Q' & Hq' & Hall).
  - intros pre a [] h1 [post Hsplit] (Hv1 & Hn1 & Q1 & Hq1 & Hpre).
    unfold vi_fill.
    assert (Ha : In a (actions mdp)).
    { rewrite Hsplit. apply in_or_app. right. now left. }
    specialize (Hsucc state a Hstate Ha).
    destruct (step mdp state a) as [next_state rw]. simpl in Hsucc.
    apply Hkeys in Hsucc. apply dict_keys_get in Hsucc. destruct Hsucc as [x Hx].
    rewrite bind_run, (v_getitem_run _ _ _ _ Hn1), Hx.
    rewrite (q_setitem_run _ _ _ _ _ Hq1).
    eexists tt, _. split; [reflexivity|]. unfold I.
    rewrite !list_lookup_insert_ne by lia.
    split; [exact Hv1|]. split; [exact Hn1|].
    eexists. split.
    { apply list_lookup_insert_eq. now apply lookup_lt_Some in Hq1. }
    intros a' Ha'. apply dict_keys_set. apply in_app_or in Ha'.
    destruct Ha' as [Ha'|[<-|[]]]; [right; now apply Hpre | now left].
  - unfold I. split; [exact Hv|]. split; [exact Hn|].
    exists Q. split; [exact Hq|]. intros a [].
  - destruct u. exists h', Q'. unfold for_. now rewrite Hrun.
Qed.

Lemma py_max_map_ok {A} (g : A -> float) (xs : list A) :
  xs <> [] -> exists m, py_max (map g xs) = Ok m.
Proof. destruct xs as [|x xs]; [congruence|]. intros _. simpl. eauto. Qed.

Lemma vi_body_total mdp n v V state d h :
  (v < n)%nat -> vi_well_formed mdp V -> In state (nonterminal_states mdp) ->
  vi_live n v V h ->
  exists d' h', vi_body mdp v n (S n) state d h = (Ok d', h') /\
                vi_live n v V h'.
Proof.
  intros Hvn Hwf Hstate (Hv & (NV & Hn & Hkeys) & (Q & Hq)).
  destruct (vi_fill_loop_total mdp n v V NV state h Q Hvn Hwf Hstate Hkeys Hv Hn Hq)
    as (h1 & Q1 & Hrun1 & Hv1 & Hn1 & Hq1 & Hall).
  unfold vi_body. rewrite (bind_ok _ _ _ _ _ Hrun1).
  assert (Hqs : map_m (fun action => q_getitem (S n) (state, action))
                  (actions mdp) h1
                = (Ok (map (fun a => default 0 (dict_get Q1 (state, a)))
                           (actions mdp)), h1)).
  { apply map_m_pure. intros a Ha. rewrite (q_getitem_run _ _ _ _ Hq1).
    destruct (dict_keys_get _ _ (Hall a Ha)) as [x ->]. reflexivity. }
  rewrite (bind_ok _ _ _ _ _ Hqs).
  destruct Hwf as (Hne & Hnt & Hsucc).
  destruct (py_max_map_ok (fun a => default 0 (dict_get Q1 (state, a))) _ Hne)
    as [m Hm].
  rewrite bind_run. unfold lift at 1. rewrite Hm.
  rewrite bind_run, (v_setitem_run _ _ _ _ _ Hn1).
  assert (Hn2 : <[n := VT (dict_set NV state m)]> h1 !! n
                = Some (VT (dict_set NV state m))).
  { apply list_lookup_insert_eq. now apply lookup_lt_Some in Hn1. }
  rewrite bind_run, (v_getitem_run _ _ _ _ Hn2), dict_get_set_eq.
  assert (Hv2 : <[n := VT (dict_set NV state m)]> h1 !! v = Some (VT V)).
  { rewrite list_lookup_insert_ne by lia. exact Hv1. }
  destruct (dict_keys_get _ _ (Hnt state Hstate)) as [old Hold].
  rewrite bind_run, (v_getitem_run _ _ _ _ Hv2), Hold.
  eexists _, _. split; [reflexivity|].
  split; [exact Hv2|]. split.
  - eexists. split; [exact Hn2|]. intros k. rewrite dict_keys_set.
    split; [intros [->|Hk]; [now apply Hnt | now apply Hkeys] | intros Hk; right; now apply Hkeys].
  - exists Q1. rewrite list_lookup_insert_ne by lia. exact Hq1.
Qed.

Lemma value_iteration_total mdp v h V :
  h !! v = Some (VT V) -> vi_well_formed mdp V ->
  exists d h', value_iteration mdp v h = (Ok (length h, S (length h), d), h').
Proof.
  intros Hv Hwf. rewrite (value_iteration_run _ _ _ _ Hv).
  assert (Hvn : (v < length h)%nat) by now apply lookup_lt_Some in Hv.
  destruct (for_fold_total (fun _ _ h' => vi_live (length h) v V h')
              (nonterminal_states mdp)
              (vi_body mdp v (length h) (S (length h))))
    with (s := 0) (h := h ++ [VT V; QT []]) as (d & h' & Hrun & _).
  - intros pre s d h1 [post Hsplit] Hlive.
    apply vi_body_total; try assumption.
    rewrite Hsplit. apply in_or_app. right. now left.
  - split; [now apply lookup_app_l_Some|]. split.
    + exists V. split; [now apply list_lookup_middle | intros k; reflexivity].
    + exists []. etrans; [apply lookup_app_r; lia|].
      replace (S (length h) - length h)%nat with 1%nat by lia. reflexivity.
  - exists d, h'. now rewrite Hrun.
Qed.

End ValueIterationTotal.

(** *** What the claims say of value_iteration *)

Section ValueIterationClaims.
Context {State Action : Type} `{EqDecision State} `{EqDecision Action}.
#[local] Abbreviation heap := (list (obj (State := State) (Action := Action))).
#[local] Abbreviation TohMdp := (TohMdp (State := State) (Action := Action)).
#[local] Abbreviation VTable := (VTable (State := State)).
#[local] Abbreviation QTable := (QTable (State := State) (Action := Action)).
Implicit Types (mdp : TohMdp) (h : heap) (v : ref) (V NV : VTable) (Q : QTable).

(** The configured discount factor plays no part in the sweep. *)
Lemma value_iteration_ignores_config mdp (c : Config) v :
  value_iteration
    {| config := c;
       nonterminal_states := nonterminal_states mdp;
       actions := actions mdp;
       step := step mdp;
       reward := reward mdp;
       is_goal := is_goal mdp |} v
  = value_iteration mdp v.
Proof. reflexivity. Qed.

Lemma lookup_as_vtable h v V : h !! v ≫= as_vtable = Some V -> h !! v = Some (VT V).
Proof.
  destruct (h !! v) as [[d|d|d]|]; simpl; intros [=]. now subst.
Qed.

(** C9: value_iteration leaves every object that was on the heap before
    the call as it was, the input value table among them, whether it
    returns or raises; the two tables it returns are objects that did not
    exist before the call, distinct from each other and from the input. *)
Theorem value_iteration_leaves_input_untouched mdp v h :
  let '(r, h') := value_iteration mdp v h in
  (forall l o, h !! l = Some o -> h' !! l = Some o) /\
  match r with
  | Ok (new_v_table, q_table, _) =>
      h !! new_v_table = None /\ h !! q_table = None /\
      new_v_table <> q_table /\ new_v_table <> v /\ q_table <> v /\
      (exists NV, h' !! new_v_table = Some (VT NV)) /\
      (exists Q, h' !! q_table = Some (QT Q))
  | Raise _ => True
  end.
Proof.
  destruct (h !! v ≫= as_vtable) as [V|] eqn:Hload.
  - apply lookup_as_vtable in Hload.
    destruct (value_iteration_heap (fun _ => True) mdp v h V Hload I
                (fun _ _ _ _ _ => I)) as [(Hframe & (NV & Hnv & _) & (Q & Hq)) Hrefs].
    destruct (value_iteration mdp v h) as [[[[nv q] d]|e] h']; simpl in *.
    + destruct (Hrefs nv q d eq_refl) as [-> ->].
      apply lookup_lt_Some in Hload.
      split; [exact Hframe|].
      repeat split; try lia; try (apply lookup_ge_None_2; lia); eauto.
    + split; [exact Hframe | exact I].
  - rewrite (value_iteration_bad_ref _ _ _ Hload). split; [auto | exact I].
Qed.

(** C8: when the terminal state is not among the nonterminal states and its
    value is 0 in the table the driver starts from, the table returned
    after any number of successive calls still maps it to 0; and on a
    well-formed MDP and table every one of these calls does return. *)
Theorem terminal_value_stays_zero mdp (terminal : State) v h V :
  ~ In terminal (nonterminal_states mdp) ->
  h !! v = Some (VT V) ->
  dict_get V terminal = Some 0 ->
  forall n,
    (forall v' h', iterate_value_iteration mdp n v h = (Ok v', h') ->
       exists V', h' !! v' = Some (VT V') /\ dict_get V' terminal = Some 0) /\
    (vi_well_formed mdp V ->
       exists v' h', iterate_value_iteration mdp n v h = (Ok v', h')).
Proof.
  intros Hterm Hv Hzero n. revert v h V Hv Hzero.
  induction n as [|n IH]; intros v h V Hv Hzero; simpl.
  - split.
    + intros v' h' [= <- <-]. now exists V.
    + intros _. now exists v, h.
  - pose proof (value_iteration_heap
                  (fun NV => dict_get NV terminal = Some 0 /\ same_keys V NV)
                  mdp v h V Hv) as Hheap.
    split.
    + intros v' h' Hrun.
      destruct (value_iteration_heap (fun NV => dict_get NV terminal = Some 0)
                  mdp v h V Hv Hzero) as [(_ & (NV & Hnv & HNV) & _) Hrefs].
      { intros NV0 s x Hs HNV0. rewrite dict_get_set_ne; [exact HNV0|].
        intros ->. contradiction. }
      rewrite bind_run in Hrun.
      destruct (value_iteration mdp v h) as [[[[nv q] d]|e] h1]; simpl in *;
        [|discriminate].
      destruct (Hrefs nv q d eq_refl) as [-> _].
      exact (proj1 (IH _ _ _ Hnv HNV) v' h' Hrun).
    + intros Hwf.
      destruct (value_iteration_total mdp v h V Hv Hwf) as (d & h1 & Hrun).
      destruct Hheap as [(_ & (NV & Hnv & HNV & Hkeys) & _) _].
      { split; [exact Hzero | intros k; reflexivity]. }
      { intros NV0 s x Hs [HNV0 Hk0]. split.
        - rewrite dict_get_set_ne; [exact HNV0|]. intros ->. contradiction.
        - intros k. rewrite dict_keys_set. destruct Hwf as (_ & Hnt & _).
          split; [intros [->|Hk]; [now apply Hnt | now apply Hk0]
                 | intros Hk; right; now apply Hk0]. }
      rewrite Hrun in Hnv. simpl in Hnv.
      rewrite (bind_ok _ _ _ _ _ Hrun).
      apply (proj2 (IH _ _ _ Hnv HNV)).
      destruct Hwf as (Hne & Hnt & Hsucc). split; [exact Hne|].
      split; intros; apply Hkeys; auto.
Qed.

End ValueIterationClaims.

(** C8, on the one-step MDP: three sweeps from [{A: 0, T: 0}]. *)
Lemma terminal_value_stays_zero_witness :
  (forall v' h',
      iterate_value_iteration (Toy.one_step 0.8) 3 0%nat
        [VT [(Toy.A, 0); (Toy.T, 0)]] = (Ok v', h') ->
      exists V', h' !! v' = Some (VT V') /\ dict_get V' Toy.T = Some 0) /\
  (vi_well_formed (Toy.one_step 0.8) [(Toy.A, 0); (Toy.T, 0)] ->
   exists v' h',
     iterate_value_iteration (Toy.one_step 0.8) 3 0%nat
       [VT [(Toy.A, 0); (Toy.T, 0)]] = (Ok v', h')).
Proof.
  apply (terminal_value_stays_zero (Toy.one_step 0.8) Toy.T 0%nat
           [VT [(Toy.A, 0); (Toy.T, 0)]] [(Toy.A, 0); (Toy.T, 0)]).
  - simpl. intros [Heq|[]]. discriminate Heq.
  - reflexivity.
  - reflexivity.
Defined.

(** C1: on an MDP configured with gamma = 0.5 (indeed with any gamma), the
    sweep computes Q(A, move) = 0.8 * (10 + 0) = 8, where the configured
    discount gives 0.5 * (10 + 0) = 5. *)
Theorem value_iteration_discount_is_hardcoded :
  (forall g,
     value_iteration (Toy.one_step g) 0%nat [VT [(Toy.A, 0); (Toy.T, 0)]] =
     (Ok (1%nat, 2%nat, 8),
      [VT [(Toy.A, 0); (Toy.T, 0)];
       VT [(Toy.A, 8); (Toy.T, 0)];
       QT [((Toy.A, Toy.move), 8)]])) /\
  gamma (config (Toy.one_step 0.5))
    * (reward (Toy.one_step 0.5) Toy.A Toy.move Toy.T + 0) = 5.
Proof. split; [intros g|]; reflexivity. Qed.

(** C2: on the two-state cycle, B is swept after A and its new value is
    computed from A's new value 0.8, not from A's value 0 in the input
    table: V(B) = 0.8 * (1 + 0.8), where the snapshot gives 0.8 * (1 + 0). *)
Theorem value_iteration_reads_updated_values :
  value_iteration Toy.two_cycle 0%nat
    [VT [(Toy.A, 0); (Toy.B, 0); (Toy.T, 0)]] =
  (Ok (1%nat, 2%nat, 0.8 * (1 + 0.8 * (1 + 0))),
   [VT [(Toy.A, 0); (Toy.B, 0); (Toy.T, 0)];
    VT [(Toy.A, 0.8 * (1 + 0)); (Toy.B, 0.8 * (1 + 0.8 * (1 + 0))); (Toy.T, 0)];
    QT [((Toy.A, Toy.move), 0.8 * (1 + 0));
        ((Toy.B, Toy.move), 0.8 * (1 + 0.8 * (1 + 0)))]]) /\
  py_eq (0.8 * (1 + 0.8 * (1 + 0))) (0.8 * (1 + 0)) = false.
Proof. split; reflexivity. Qed.

(** ** Running maxima *)

Section RunMax.
Context {State Action : Type} `{EqDecision State} `{EqDecision Action}.
#[local] Abbreviation QTable := (QTable (State := State) (Action := Action)).
Implicit Types (Q : QTable) (vs : list float) (m v : float).

Lemma run_max_cons v vs m :
  run_max (v :: vs) m = run_max vs (if py_gt v m then v else m).
Proof. reflexivity. Qed.

(** Either no item was greater than the start value, which is the result;
    or the result is an item greater than the start value. In both cases
    no item is greater than the result. *)
Lemma run_max_spec vs m :
  (run_max vs m = m /\ forall v, In v vs -> py_gt v m = false) \/
  (py_gt (run_max vs m) m = true /\ In (run_max vs m) vs /\
   forall v, In v vs -> py_gt v (run_max vs m) = false).
Proof.
  revert m. induction vs as [|v vs IH]; intros m.
  - left. split; [reflexivity | intros v []].
  - rewrite run_max_cons. destruct (py_gt v m) eqn:Hvm.
    + right. destruct (IH v) as [[-> Hle]|(Hgt & Hin & Hle)].
      * split; [exact Hvm|]. split; [now left|].
        intros w [<-|Hw]; [apply float_ltb_irrefl | now apply Hle].
      * split; [exact (float_ltb_trans _ _ _ Hvm Hgt)|]. split; [now right|].
        intros w [<-|Hw]; [exact (float_ltb_asym _ _ Hgt) | now apply Hle].
    + destruct (IH m) as [[-> Hle]|(Hgt & Hin & Hle)].
      * left. split; [reflexivity|]. intros w [<-|Hw]; [exact Hvm | now apply Hle].
      * right. split; [exact Hgt|]. split; [now right|].
        intros w [<-|Hw]; [|now apply Hle].
        apply not_true_is_false. intros Hbad. unfold py_gt in *.
        now rewrite (float_ltb_trans _ _ _ Hgt Hbad) in Hvm.
Qed.

Lemma values_at_In Q s v :
  In v (values_at Q s (dict_keys Q)) <-> exists a, dict_get Q (s, a) = Some v.
Proof.
  unfold values_at. rewrite in_flat_map. split.
  - intros ([s0 a] & _ & Hin). simpl in Hin.
    destruct (decide (s0 = s)) as [->|]; [|destruct Hin].
    destruct (dict_get Q (s, a)) as [w|] eqn:Hw; [|destruct Hin].
    destruct Hin as [<-|[]]. now exists a.
  - intros [a Ha]. exists (s, a). split; [now apply dict_get_Some_keys in Ha|].
    simpl. destruct (decide (s = s)); [|congruence]. rewrite Ha. now left.
Qed.

(** The running maximum of the entries of a state, started at [-inf], is
    their maximum. *)
Lemma run_max_is_max_at Q s :
  is_max_at Q s (run_max (values_at Q s (dict_keys Q)) neg_inf).
Proof.
  destruct (run_max_spec (values_at Q s (dict_keys Q)) neg_inf)
    as [[Heq Hle]|(_ & Hin & Hle)].
  - rewrite Heq. split; [|now right].
    intros a v Hv. apply Hle, values_at_In. now exists a.
  - split.
    + intros a v Hv. apply Hle, values_at_In. now exists a.
    + left. now apply values_at_In.
Qed.

(** A maximum that is not attained is [-inf] over entries that are all NaN. *)
Lemma is_max_at_attained Q s m :
  is_max_at Q s m ->
  (exists a v, dict_get Q (s, a) = Some v /\ is_nan v = false) ->
  exists a, dict_get Q (s, a) = Some m.
Proof.
  intros [Hle [Hatt| ->]] (a & v & Hv & Hnan); [exact Hatt|].
  exists a. rewrite Hv. f_equal. apply neg_infinity_least.
  - unfold is_nan in Hnan. now apply negb_false_iff in Hnan.
  - exact (Hle a v Hv).
Qed.

Lemma next_max_run_max Q next_state :
  next_max Q next_state =
  run_max (values_at Q next_state (dict_keys Q)) neg_inf.
Proof.
  unfold next_max, run_max, values_at.
  generalize neg_inf. induction (dict_keys Q) as [|[s a] ks IH]; intros m;
    [reflexivity|].
  simpl. rewrite IH. destruct (decide (s = next_state)); [|reflexivity].
  destruct (dict_get Q (s, a)); reflexivity.
Qed.

End RunMax.

(** ** q_update *)

Section QUpdateFacts.
Context {State Action : Type} `{EqDecision State} `{EqDecision Action}.
#[local] Abbreviation heap := (list (obj (State := State) (Action := Action))).
#[local] Abbreviation TohMdp := (TohMdp (State := State) (Action := Action)).
#[local] Abbreviation QTable := (QTable (State := State) (Action := Action)).
Implicit Types (mdp : TohMdp) (h : heap) (q : ref) (Q : QTable).

Lemma q_update_loop_run h q Q next_state :
  h !! q = Some (QT Q) ->
  (let* ks := q_keys q in
   for_fold ks (fun '(s, a) maxQ =>
     if decide (s = next_state) then
       let* v := q_getitem q (s, a) in
       if py_gt v maxQ then q_getitem q (s, a) else ret maxQ
     else ret maxQ) neg_inf) h
  = (Ok (next_max Q next_state), h).
Proof.
  intros Hq. rewrite (bind_ok _ _ _ _ _ (q_keys_run _ _ _ Hq)).
  unfold next_max.
  apply (for_fold_pure (dict_keys Q) _ (next_max_step Q next_state)).
  intros [s a] m Hin. simpl.
  destruct (decide (s = next_state)); [|reflexivity].
  destruct (dict_keys_get _ _ Hin) as [v Hv].
  rewrite bind_run, (q_getitem_run _ _ _ _ Hq), Hv.
  destruct (py_gt v m); [|reflexivity].
  now rewrite (q_getitem_run _ _ _ _ Hq), Hv.
Qed.

(** The whole of [q_update] on a live Q-table. *)
Lemma q_update_run mdp q s a r s' alpha h Q :
  h !! q = Some (QT Q) ->
  q_update mdp q (s, a, r, s') alpha h =
  match dict_get Q (s, a) with
  | Some prior =>
      (Ok tt,
       <[q := QT (dict_set Q (s, a)
                    ((1 - alpha) * prior
                     + alpha * (r + gamma (config mdp) * bootstrap mdp Q s s')))]> h)
  | None => (Raise KeyError, h)
  end.
Proof.
  intros Hq. unfold q_update, bootstrap.
  destruct (is_goal mdp s); simpl negb; cbv iota.
  - rewrite bind_run. unfold ret at 1.
    rewrite bind_run, (q_getitem_run _ _ _ _ Hq).
    destruct (dict_get Q (s, a)) as [prior|]; [|reflexivity].
    now rewrite (q_setitem_run _ _ _ _ _ Hq).
  - rewrite (bind_ok _ _ _ _ _ (q_update_loop_run h q Q s' Hq)).
    rewrite bind_run, (q_getitem_run _ _ _ _ Hq).
    destruct (dict_get Q (s, a)) as [prior|]; [|reflexivity].
    now rewrite (q_setitem_run _ _ _ _ _ Hq).
Qed.


(** C4: when s is a goal state, q_update does the same whatever the next
    state of the transition is; on a present pair (s, a) the value stored
    is (1 - alpha) * prior + alpha * (r + gamma * 0). *)
Theorem q_update_at_goal_ignores_next_state mdp q s a r alpha h :
  is_goal mdp s = true ->
  (forall s1 s2,
     q_update mdp q (s, a, r, s1) alpha h =
     q_update mdp q (s, a, r, s2) alpha h) /\
  (forall Q prior s',
     h !! q = Some (QT Q) -> dict_get Q (s, a) = Some prior ->
     q_update mdp q (s, a, r, s') alpha h =
     (Ok tt,
      <[q := QT (dict_set Q (s, a)
                   ((1 - alpha) * prior
                    + alpha * (r + gamma (config mdp) * 0)))]> h)).
Proof.
  intros Hgoal. split.
  - intros s1 s2. unfold q_update. now rewrite Hgoal.
  - intros Q prior s' Hq Hprior.
    rewrite (q_update_run _ _ _ _ _ _ _ _ _ Hq), Hprior.
    unfold bootstrap. now rewrite Hgoal.
Qed.

End QUpdateFacts.



(** C4, at the goal state A: two transitions that differ in the next state
    only. *)
Lemma q_update_at_goal_ignores_next_state_witness :
  (forall s1 s2,
     q_update Toy.goal_at_A 0%nat (Toy.A, Toy.move, 10, s1) 0.5
       [QT [((Toy.A, Toy.move), 2); ((Toy.B, Toy.stay), 7)]] =
     q_update Toy.goal_at_A 0%nat (Toy.A, Toy.move, 10, s2) 0.5
       [QT [((Toy.A, Toy.move), 2); ((Toy.B, Toy.stay), 7)]]) /\
  (forall Q prior s',
     [QT [((Toy.A, Toy.move), 2); ((Toy.B, Toy.stay), 7)]] !! 0%nat = Some (QT Q) ->
     dict_get Q (Toy.A, Toy.move) = Some prior ->
     q_update Toy.goal_at_A 0%nat (Toy.A, Toy.move, 10, s') 0.5
       [QT [((Toy.A, Toy.move), 2); ((Toy.B, Toy.stay), 7)]] =
     (Ok tt,
      <[0%nat := QT (dict_set Q (Toy.A, Toy.move)
                   ((1 - 0.5) * prior
                    + 0.5 * (10 + gamma (config Toy.goal_at_A) * 0)))]>
        [QT [((Toy.A, Toy.move), 2); ((Toy.B, Toy.stay), 7)]])).
Proof.
  apply (q_update_at_goal_ignores_next_state Toy.goal_at_A 0%nat
           Toy.A Toy.move 10 0.5
           [QT [((Toy.A, Toy.move), 2); ((Toy.B, Toy.stay), 7)]]).
  reflexivity.
Defined.

(** ** The schedules *)

(** C5: custom_epsilon returns its argument, an int that is outside [0, 1]
    from the second step on, and custom_alpha returns None at every step:
    neither is a float within the bounds. *)
Theorem schedules_out_of_bounds :
  (forall n, custom_epsilon n = PyInt n) /\
  ~ in_closed_unit (custom_epsilon 2) /\
  (forall n, custom_alpha n = PyNone) /\
  ~ in_half_open_unit (custom_alpha 2).
Proof.
  split; [reflexivity|]. split; [simpl; lia|]. split; [reflexivity|].
  simpl. tauto.
Qed.

(** ** choose_next_action *)

Section ChooseNextActionFacts.
Context {State Action : Type} `{EqDecision State} `{EqDecision Action}.
#[local] Abbreviation heap := (list (obj (State := State) (Action := Action))).
#[local] Abbreviation TohMdp := (TohMdp (State := State) (Action := Action)).
#[local] Abbreviation QTable := (QTable (State := State) (Action := Action)).
Implicit Types (mdp : TohMdp) (h : heap) (q : ref) (Q : QTable).

(** Both loops only read the table. *)
Lemma best_actions_run mdp state q h Q :
  h !! q = Some (QT Q) ->
  best_actions mdp state q h = (Ok (candidates Q state), h).
Proof.
  intros Hq. unfold best_actions, candidates.
  rewrite (bind_ok _ _ _ _ _ (q_keys_run _ _ _ Hq)).
  rewrite bind_run.
  rewrite (for_fold_pure (dict_keys Q) _ (best_step Q state) h).
  2:{ intros [s a] [ba bq] Hin. simpl.
      destruct (decide (s = state)); [|reflexivity].
      destruct (dict_keys_get _ _ Hin) as [v Hv].
      rewrite bind_run, (q_getitem_run _ _ _ _ Hq), Hv.
      destruct (py_gt v bq); [|reflexivity].
      now rewrite bind_run, (q_getitem_run _ _ _ _ Hq), Hv. }
  destruct (fold_left _ (dict_keys Q) (None, neg_inf)) as [ba bq].
  rewrite (bind_ok _ _ _ _ _ (q_keys_run _ _ _ Hq)).
  apply (for_fold_pure (dict_keys Q) _ (ties_step Q state bq) h).
  intros [s a] best Hin. simpl.
  destruct (decide (s = state)); [|reflexivity].
  destruct (dict_keys_get _ _ Hin) as [v Hv].
  rewrite bind_run, (q_getitem_run _ _ _ _ Hq), Hv.
  now destruct (py_eq v bq).
Qed.

(** The first loop ends with its start pair, or with a key of the state
    and its value, greater than the start value. *)
Lemma best_fold_spec Q state ks ba bq :
  (fold_left (fun best k => best_step Q state k best) ks (ba, bq) = (ba, bq) /\
   forall a v, In (state, a) ks -> dict_get Q (state, a) = Some v ->
               py_gt v bq = false)
  \/
  (exists a m,
     fold_left (fun best k => best_step Q state k best) ks (ba, bq)
     = (Some a, m) /\
     In (state, a) ks /\ dict_get Q (state, a) = Some m /\
     py_gt m bq = true).
Proof.
  revert ba bq. induction ks as [|[s a] ks IH]; intros ba bq.
  - left. split; [reflexivity | intros a v []].
  - change (fold_left (fun best k => best_step Q state k best)
              ((s, a) :: ks) (ba, bq))
      with (fold_left (fun best k => best_step Q state k best) ks
              (best_step Q state (s, a) (ba, bq))).
    simpl best_step. destruct (decide (s = state)) as [->|Hne].
    + destruct (dict_get Q (state, a)) as [v|] eqn:Hv.
      * destruct (py_gt v bq) eqn:Hgt.
        -- right. destruct (IH (Some a) v) as [[Heq _]|(a' & m & Heq & Hin & Hm & Hgt')].
           ++ exists a, v. rewrite Heq. repeat split; [now left | exact Hv | exact Hgt].
           ++ exists a', m. rewrite Heq.
              repeat split; [now right | exact Hm |].
              exact (float_ltb_trans _ _ _ Hgt Hgt').
        -- destruct (IH ba bq) as [[Heq Hle]|(a' & m & Heq & Hin & Hm & Hgt')].
           ++ left. split; [exact Heq|].
              intros a1 v1 [[= <-]|Hin] Hv1; [congruence | now apply (Hle a1)].
           ++ right. exists a', m. rewrite Heq.
              repeat split; [now right | exact Hm | exact Hgt'].
      * destruct (IH ba bq) as [[Heq Hle]|(a' & m & Heq & Hin & Hm & Hgt')].
        -- left. split; [exact Heq|].
           intros a1 v1 [[= <-]|Hin] Hv1; [congruence | now apply (Hle a1)].
        -- right. exists a', m. rewrite Heq.
           repeat split; [now right | exact Hm | exact Hgt'].
    + destruct (IH ba bq) as [[Heq Hle]|(a' & m & Heq & Hin & Hm & Hgt')].
      * left. split; [exact Heq|].
        intros a1 v1 [[= -> _]|Hin] Hv1; [congruence | now apply (Hle a1)].
      * right. exists a', m. rewrite Heq.
        repeat split; [now right | exact Hm | exact Hgt'].
Qed.

(** The second loop keeps what the list holds and appends every key of the
    state whose value equals [m]. *)
Lemma ties_fold_spec Q state m ks best :
  exists more,
    fold_left (fun best k => ties_step Q state m k best) ks best
    = best ++ more /\
    forall a v, In (state, a) ks -> dict_get Q (state, a) = Some v ->
                py_eq v m = true -> In (Some a) more.
Proof.
  revert best. induction ks as [|[s a] ks IH]; intros best.
  - exists []. split; [now rewrite app_nil_r | intros a v []].
  - change (fold_left (fun best k => ties_step Q state m k best)
              ((s, a) :: ks) best)
      with (fold_left (fun best k => ties_step Q state m k best) ks
              (ties_step Q state m (s, a) best)).
    destruct (IH (ties_step Q state m (s, a) best)) as (more & Heq & Hall).
    rewrite Heq. simpl ties_step.
    destruct (decide (s = state)) as [->|Hne].
    + destruct (dict_get Q (state, a)) as [v|] eqn:Hv.
      * destruct (py_eq v m) eqn:Heqb.
        -- exists (Some a :: more). split; [now rewrite <- app_assoc|].
           intros a1 v1 [[= <-]|Hin] Hv1 He1; [now left | right; eauto].
        -- exists more. split; [reflexivity|].
           intros a1 v1 [[= <-]|Hin] Hv1 He1; [congruence | eauto].
      * exists more. split; [reflexivity|].
        intros a1 v1 [[= <-]|Hin] Hv1 He1; [congruence | eauto].
    + exists more. split; [reflexivity|].
      intros a1 v1 [[= -> _]|Hin] Hv1 He1; [congruence | eauto].
Qed.

(** Whenever the state has an entry greater than [-inf], the list starts
    with the best action and holds it once more. *)
Lemma best_actions_head_repeated mdp state q h Q :
  h !! q = Some (QT Q) ->
  (exists a v, dict_get Q (state, a) = Some v /\ py_gt v neg_inf = true) ->
  exists a more,
    best_actions mdp state q h = (Ok (Some a :: more), h) /\
    In (Some a) more.
Proof.
  intros Hq (a0 & v0 & Hv0 & Hgt0).
  rewrite (best_actions_run _ _ _ _ _ Hq). unfold candidates.
  destruct (best_fold_spec Q state (dict_keys Q) None neg_inf)
    as [[_ Hle]|(a & m & Heq & Hin & Hm & Hgt)].
  { rewrite (Hle a0 v0 (dict_get_Some_keys _ _ _ Hv0) Hv0) in Hgt0.
    discriminate. }
  rewrite Heq.
  destruct (ties_fold_spec Q state m (dict_keys Q) ([] ++ [Some a]))
    as (more & Heq' & Hall).
  exists a, more. rewrite Heq'. split; [reflexivity|].
  apply (Hall a m Hin Hm). exact (float_ltb_eqb_refl_r _ _ Hgt).
Qed.

End ChooseNextActionFacts.

(** C6: with the single entry Q(A, move) = 1 the candidate list handed to
    epsilon_greedy is [move, move]: the best action is put in before the
    loop over the ties, which finds it again. With two tied entries the
    first one is there twice; with no entry the list is [None]. *)
Theorem best_actions_repeats_the_best :
  choose_next_action (Toy.one_step 0.8) Toy.A 0.1 0%nat (fun best _ => best)
    [QT [((Toy.A, Toy.move), 1)]]
  = (Ok [Some Toy.move; Some Toy.move], [QT [((Toy.A, Toy.move), 1)]]) /\
  ~ List.NoDup [Some Toy.move; Some Toy.move] /\
  choose_next_action Toy.goal_at_A Toy.B 0.1 0%nat (fun best _ => best)
    [QT [((Toy.B, Toy.move), 1); ((Toy.B, Toy.stay), 1)]]
  = (Ok [Some Toy.move; Some Toy.move; Some Toy.stay],
     [QT [((Toy.B, Toy.move), 1); ((Toy.B, Toy.stay), 1)]]) /\
  choose_next_action (Toy.one_step 0.8) Toy.A 0.1 0%nat (fun best _ => best)
    [QT []]
  = (Ok [None], [QT []]).
Proof.
  split; [reflexivity|]. split; [|split; reflexivity].
  intros Hnd. inversion Hnd as [|x l Hnin _]. apply Hnin. now left.
Qed.

(** ** extract_policy *)

Section ExtractPolicyFacts.
Context {State Action : Type} `{EqDecision State} `{EqDecision Action}.
#[local] Abbreviation heap := (list (obj (State := State) (Action := Action))).
#[local] Abbreviation TohMdp := (TohMdp (State := State) (Action := Action)).
#[local] Abbreviation QTable := (QTable (State := State) (Action := Action)).
#[local] Abbreviation Policy := (Policy (State := State) (Action := Action)).
Implicit Types (mdp : TohMdp) (h : heap) (q : ref) (Q : QTable) (P : Policy).

(** The loop over the actions only reads the table. *)
Lemma extract_policy_inner_run h q Q state acts best :
  h !! q = Some (QT Q) ->
  for_fold acts (fun action '(best_action, best_q_value) =>
    let* present := q_contains q (state, action) in
    if present : bool then
      let* q_value := q_getitem q (state, action) in
      if py_gt q_value best_q_value
      then ret (Some action, q_value)
      else ret (best_action, best_q_value)
    else ret (best_action, best_q_value)) best h
  = (Ok (greedy Q state acts best), h).
Proof.
  intros Hq. unfold greedy.
  apply (for_fold_pure acts _ (greedy_step Q state)).
  intros a [ba bq] _. unfold greedy_step.
  rewrite bind_run, (q_contains_run _ _ _ _ Hq).
  destruct (dict_mem Q (state, a)) eqn:Hmem; [|reflexivity].
  rewrite bind_run, (q_getitem_run _ _ _ _ Hq).
  unfold dict_mem in Hmem. destruct (dict_get Q (state, a)) as [v|]; [|discriminate].
  now destruct (py_gt v bq).
Qed.

Lemma heap_set_last h (o o' : obj (State := State) (Action := Action)) :
  <[length h := o']> (h ++ [o]) = h ++ [o'].
Proof.
  etrans; [apply insert_app_r_alt; lia|].
  now replace (length h - length h)%nat with 0%nat by lia.
Qed.

Lemma extract_policy_outer_run mdp h q Q states P :
  h !! q = Some (QT Q) ->
  for_ states (fun state =>
    let* '(best_action, _) :=
      for_fold (actions mdp) (fun action '(best_action, best_q_value) =>
        let* present := q_contains q (state, action) in
        if present : bool then
          let* q_value := q_getitem q (state, action) in
          if py_gt q_value best_q_value
          then ret (Some action, q_value)
          else ret (best_action, best_q_value)
        else ret (best_action, best_q_value)) (None, neg_inf) in
    p_setitem (length h) state best_action) (h ++ [PT P])
  = (Ok tt,
     h ++ [PT (fold_left
                 (fun P state =>
                    dict_set P state
                      (fst (greedy Q state (actions mdp) (None, neg_inf))))
                 states P)]).
Proof.
  intros Hq. unfold for_. revert P.
  induction states as [|state states IH]; intros P; [reflexivity|].
  simpl. rewrite bind_run, bind_run.
  rewrite (extract_policy_inner_run (h ++ [PT P]) q Q state (actions mdp)
             (None, neg_inf) (lookup_app_l_Some _ _ _ _ Hq)).
  destruct (greedy Q state (actions mdp) (None, neg_inf)) as [ba bq]. simpl.
  rewrite (p_setitem_run _ _ P _ _ (list_lookup_middle h [] (PT P) _ eq_refl)).
  rewrite heap_set_last. apply IH.
Qed.

(** The whole of [extract_policy] on a live Q-table: the heap gains the
    policy and is otherwise as it was. *)
Lemma extract_policy_run mdp q h Q :
  h !! q = Some (QT Q) ->
  extract_policy mdp q h = (Ok (length h), h ++ [PT (policy_of mdp Q)]).
Proof.
  intros Hq. unfold extract_policy, policy_of.
  rewrite bind_run. unfold alloc at 1.
  rewrite bind_run, (extract_policy_outer_run mdp h q Q _ [] Hq).
  reflexivity.
Qed.

Lemma dict_get_fold_set_notin {K V} `{EqDecision K} (f : K -> V)
    (xs : list K) (d : dict K V) k :
  ~ In k xs ->
  dict_get (fold_left (fun d x => dict_set d x (f x)) xs d) k = dict_get d k.
Proof.
  revert d. induction xs as [|x xs IH]; intros d Hnin; [reflexivity|].
  simpl. rewrite IH by (intros Hin; apply Hnin; now right).
  apply dict_get_set_ne. intros ->. apply Hnin. now left.
Qed.

Lemma dict_get_fold_set_in {K V} `{EqDecision K} (f : K -> V)
    (xs : list K) (d : dict K V) k :
  In k xs ->
  dict_get (fold_left (fun d x => dict_set d x (f x)) xs d) k = Some (f k).
Proof.
  revert d. induction xs as [|x xs IH]; intros d Hin; [destruct Hin|].
  simpl. destruct (in_dec (fun a b => decide (a = b)) k xs) as [Hk|Hk].
  - now apply IH.
  - destruct Hin as [->|Hin]; [|contradiction].
    rewrite dict_get_fold_set_notin by exact Hk. apply dict_get_set_eq.
Qed.

Lemma policy_of_get mdp Q s :
  In s (nonterminal_states mdp) ->
  dict_get (policy_of mdp Q) s
  = Some (fst (greedy Q s (actions mdp) (None, neg_inf))).
Proof.
  intros Hs. unfold policy_of.
  now rewrite (dict_get_fold_set_in
                 (fun s => fst (greedy Q s (actions mdp) (None, neg_inf)))).
Qed.

(** What the loop over the actions ends with: the start pair, when no
    present entry is greater than the start value; otherwise the first
    action, in enumeration order, whose present entry is the greatest. *)
Lemma greedy_spec Q s acts ba bq :
  (greedy Q s acts (ba, bq) = (ba, bq) /\
   forall a v, In a acts -> dict_get Q (s, a) = Some v -> py_gt v bq = false)
  \/
  (exists l1 a l2 m,
     acts = l1 ++ a :: l2 /\
     greedy Q s acts (ba, bq) = (Some a, m) /\
     dict_get Q (s, a) = Some m /\
     py_gt m bq = true /\
     (forall a1 v, In a1 l1 -> dict_get Q (s, a1) = Some v ->
                   py_gt v m = false /\ py_eq v m = false) /\
     (forall a2 v, In a2 l2 -> dict_get Q (s, a2) = Some v ->
                   py_gt v m = false)).
Proof.
  revert ba bq. induction acts as [|a acts IH]; intros ba bq.
  - left. split; [reflexivity | intros a v []].
  - assert (Hstep : greedy Q s (a :: acts) (ba, bq)
                    = greedy Q s acts (greedy_step Q s a (ba, bq)))
      by reflexivity.
    rewrite Hstep. unfold greedy_step, dict_mem.
    destruct (dict_get Q (s, a)) as [v|] eqn:Hv.
    + destruct (py_gt v bq) eqn:Hgt.
      * right. destruct (IH (Some a) v)
          as [[Heq Hle]|(l1 & a' & l2 & m & Hsplit & Heq & Hm & Hgt' & Hl1 & Hl2)].
        -- exists [], a, acts, v. rewrite Heq.
           split; [reflexivity|]. split; [reflexivity|]. split; [exact Hv|].
           split; [exact Hgt|]. split; [intros a1 v1 [] | exact Hle].
        -- exists (a :: l1), a', l2, m. rewrite Heq, Hsplit.
           split; [reflexivity|]. split; [reflexivity|]. split; [exact Hm|].
           split; [exact (float_ltb_trans _ _ _ Hgt Hgt')|]. split; [|exact Hl2].
           intros a1 v1 [<-|Hin] Hv1; [|now apply (Hl1 a1)].
           rewrite Hv in Hv1. injection Hv1 as <-.
           split; [exact (float_ltb_asym _ _ Hgt')|].
           exact (float_ltb_not_eqb _ _ Hgt').
      * destruct (IH ba bq)
          as [[Heq Hle]|(l1 & a' & l2 & m & Hsplit & Heq & Hm & Hgt' & Hl1 & Hl2)].
        -- left. split; [exact Heq|].
           intros a1 v1 [<-|Hin] Hv1; [|now apply (Hle a1)].
           rewrite Hv in Hv1. now injection Hv1 as <-.
        -- right. exists (a :: l1), a', l2, m. rewrite Heq, Hsplit.
           split; [reflexivity|]. split; [reflexivity|]. split; [exact Hm|].
           split; [exact Hgt'|]. split; [|exact Hl2].
           intros a1 v1 [<-|Hin] Hv1; [|now apply (Hl1 a1)].
           rewrite Hv in Hv1. injection Hv1 as <-.
           split; apply not_true_is_false; intros Hbad; unfold py_gt, py_eq in *.
           ++ now rewrite (float_ltb_trans _ _ _ Hgt' Hbad) in Hgt.
           ++ now rewrite (float_ltb_eqb_r _ _ _ Hgt' (float_eqb_sym _ _ Hbad)) in Hgt.
    + destruct (IH ba bq)
        as [[Heq Hle]|(l1 & a' & l2 & m & Hsplit & Heq & Hm & Hgt' & Hl1 & Hl2)].
      * left. split; [exact Heq|].
        intros a1 v1 [<-|Hin] Hv1; [congruence | now apply (Hle a1)].
      * right. exists (a :: l1), a', l2, m. rewrite Heq, Hsplit.
        split; [reflexivity|]. split; [reflexivity|]. split; [exact Hm|].
        split; [exact Hgt'|]. split; [|exact Hl2].
        intros a1 v1 [<-|Hin] Hv1; [congruence | now apply (Hl1 a1)].
Qed.


End ExtractPolicyFacts.



(** ** extract_v_table *)

Section ExtractVTableFacts.
Context {State Action : Type} `{EqDecision State} `{EqDecision Action}.
#[local] Abbreviation heap := (list (obj (State := State) (Action := Action))).
#[local] Abbreviation TohMdp := (TohMdp (State := State) (Action := Action)).
#[local] Abbreviation VTable := (VTable (State := State)).
#[local] Abbreviation QTable := (QTable (State := State) (Action := Action)).
Implicit Types (mdp : TohMdp) (h : heap) (q : ref) (Q : QTable) (V : VTable).

(** One round of the loop, on the heap of the call with the new table
    last. *)
Lemma extract_v_table_round h q Q V s a :
  h !! q = Some (QT Q) -> In (s, a) (dict_keys Q) ->
  (let* present := v_contains (length h) s in
   let* _ := if negb present then v_setitem (length h) s neg_inf
             else ret tt in
   let* x := q_getitem q (s, a) in
   let* v := v_getitem (length h) s in
   if py_gt x v
   then let* x' := q_getitem q (s, a) in v_setitem (length h) s x'
   else ret tt) (h ++ [VT V])
  = (Ok tt, h ++ [VT (ev_step Q (s, a) V)]).
Proof.
  intros Hq Hin. destruct (dict_keys_get _ _ Hin) as [x Hx].
  assert (Hlast : forall V', (h ++ [VT V']) !! length h = Some (VT V')).
  { intros V'. now apply list_lookup_middle. }
  assert (Hq' : forall V', (h ++ [VT V']) !! q = Some (QT Q)).
  { intros V'. now apply lookup_app_l_Some. }
  unfold ev_step. rewrite Hx.
  rewrite bind_run, (v_contains_run _ _ _ _ (Hlast V)).
  set (V1 := if negb (dict_mem V s) then dict_set V s neg_inf else V).
  assert (Hfirst : (let* _ := if negb (dict_mem V s)
                              then v_setitem (length h) s neg_inf
                              else ret tt in ret tt) (h ++ [VT V])
                   = (Ok tt, h ++ [VT V1])).
  { subst V1. destruct (negb (dict_mem V s)); [|reflexivity].
    rewrite bind_run, (v_setitem_run _ _ _ _ _ (Hlast V)), heap_set_last.
    reflexivity. }
  rewrite bind_run.
  assert (Hfirst' : (if negb (dict_mem V s)
                     then v_setitem (length h) s neg_inf
                     else ret tt) (h ++ [VT V]) = (Ok tt, h ++ [VT V1])).
  { rewrite bind_run in Hfirst.
    destruct ((if negb (dict_mem V s) then v_setitem (length h) s neg_inf
               else ret tt) (h ++ [VT V])) as [[[]|e] h1]; [exact Hfirst|].
    discriminate. }
  rewrite Hfirst'.
  rewrite bind_run, (q_getitem_run _ _ _ _ (Hq' V1)), Hx.
  rewrite bind_run, (v_getitem_run _ _ _ _ (Hlast V1)).
  destruct (dict_get V1 s) as [v|] eqn:Hv.
  - destruct (py_gt x v); [|reflexivity].
    rewrite bind_run, (q_getitem_run _ _ _ _ (Hq' V1)), Hx.
    now rewrite (v_setitem_run _ _ _ _ _ (Hlast V1)), heap_set_last.
  - exfalso. subst V1. unfold dict_mem in Hv.
    destruct (dict_get V s) eqn:HV; simpl in Hv; [congruence|].
    rewrite dict_get_set_eq in Hv. discriminate.
Qed.

Lemma extract_v_table_loop_run h q Q ks V :
  h !! q = Some (QT Q) -> (forall k, In k ks -> In k (dict_keys Q)) ->
  for_ ks (fun '(s, a) =>
    let* present := v_contains (length h) s in
    let* _ := if negb present then v_setitem (length h) s neg_inf
              else ret tt in
    let* x := q_getitem q (s, a) in
    let* v := v_getitem (length h) s in
    if py_gt x v
    then let* x' := q_getitem q (s, a) in v_setitem (length h) s x'
    else ret tt) (h ++ [VT V])
  = (Ok tt, h ++ [VT (fold_left (fun V k => ev_step Q k V) ks V)]).
Proof.
  intros Hq. unfold for_. revert V.
  induction ks as [|[s a] ks IH]; intros V Hks; [reflexivity|].
  simpl. rewrite bind_run.
  rewrite (extract_v_table_round h q Q V s a Hq (Hks _ (or_introl eq_refl))).
  apply IH. intros k Hk. apply Hks. now right.
Qed.

(** The whole of [extract_v_table] on a live Q-table: the heap gains the
    value table and is otherwise as it was. *)
Lemma extract_v_table_run mdp q h Q :
  h !! q = Some (QT Q) ->
  extract_v_table mdp q h = (Ok (length h), h ++ [VT (v_table_of Q)]).
Proof.
  intros Hq. unfold extract_v_table, v_table_of.
  rewrite bind_run. unfold alloc at 1.
  rewrite bind_run,
    (q_keys_run _ _ _ (lookup_app_l_Some h [VT []] q _ Hq)).
  rewrite bind_run,
    (extract_v_table_loop_run h q Q (dict_keys Q) [] Hq (fun k Hk => Hk)).
  reflexivity.
Qed.

Lemma ev_step_get Q V s0 a0 x s :
  dict_get Q (s0, a0) = Some x ->
  dict_get (ev_step Q (s0, a0) V) s =
  if decide (s0 = s)
  then Some (let v0 := default neg_inf (dict_get V s) in
             if py_gt x v0 then x else v0)
  else dict_get V s.
Proof.
  intros Hx. unfold ev_step, dict_mem. rewrite Hx.
  destruct (decide (s0 = s)) as [->|Hne].
  - destruct (dict_get V s) as [v|] eqn:Hv; simpl.
    + rewrite Hv. destruct (py_gt x v); [apply dict_get_set_eq | exact Hv].
    + rewrite dict_get_set_eq.
      destruct (py_gt x neg_inf); apply dict_get_set_eq.
  - destruct (dict_get V s0) as [v|] eqn:Hv; simpl.
    + rewrite Hv. destruct (py_gt x v); [now apply dict_get_set_ne | reflexivity].
    + rewrite dict_get_set_eq.
      destruct (py_gt x neg_inf); rewrite ?dict_get_set_ne by exact Hne;
        reflexivity.
Qed.

(** The entry of a state after the loop: the running maximum of its
    values, started at the entry it had or at [-inf]. *)
Lemma ev_fold_get Q ks V s :
  (forall k, In k ks -> In k (dict_keys Q)) ->
  dict_get (fold_left (fun V k => ev_step Q k V) ks V) s =
  match values_at Q s ks with
  | [] => dict_get V s
  | _ :: _ =>
      Some (run_max (values_at Q s ks) (default neg_inf (dict_get V s)))
  end.
Proof.
  revert V. induction ks as [|[s0 a0] ks IH]; intros V Hks; [reflexivity|].
  destruct (dict_keys_get _ _ (Hks _ (or_introl eq_refl))) as [x Hx].
  change (fold_left (fun V k => ev_step Q k V) ((s0, a0) :: ks) V)
    with (fold_left (fun V k => ev_step Q k V) ks (ev_step Q (s0, a0) V)).
  rewrite IH by (intros k Hk; apply Hks; now right).
  rewrite (ev_step_get Q V s0 a0 x s Hx).
  change (values_at Q s ((s0, a0) :: ks))
    with ((if decide (s0 = s)
           then match dict_get Q (s0, a0) with Some v => [v] | None => [] end
           else []) ++ values_at Q s ks).
  rewrite Hx. destruct (decide (s0 = s)) as [->|Hne]; simpl.
  - destruct (values_at Q s ks); reflexivity.
  - reflexivity.
Qed.

Lemma v_table_of_get Q s :
  dict_get (v_table_of Q) s =
  match values_at Q s (dict_keys Q) with
  | [] => None
  | _ :: _ => Some (run_max (values_at Q s (dict_keys Q)) neg_inf)
  end.
Proof. unfold v_table_of. now rewrite ev_fold_get. Qed.

Lemma values_at_nonempty Q s :
  values_at Q s (dict_keys Q) <> [] <-> exists a, In (s, a) (dict_keys Q).
Proof.
  split.
  - intros Hne. destruct (values_at Q s (dict_keys Q)) as [|v vs] eqn:Hvs;
      [congruence|].
    assert (Hin : In v (values_at Q s (dict_keys Q))) by (rewrite Hvs; now left).
    apply values_at_In in Hin. destruct Hin as [a Ha]. exists a.
    now apply dict_get_Some_keys in Ha.
  - intros [a Ha] Hnil. destruct (dict_keys_get _ _ Ha) as [v Hv].
    assert (Hin : In v (values_at Q s (dict_keys Q)))
      by (apply values_at_In; now exists a).
    now rewrite Hnil in Hin.
Qed.

(** The running maximum started at [-inf] is never NaN: a NaN is not
    greater than anything, so the loop never takes one. *)
Lemma run_max_neg_inf_not_nan (vs : list float) :
  is_nan (run_max vs neg_inf) = false.
Proof.
  destruct (run_max_spec vs neg_inf) as [[-> _]|(Hgt & _)]; [reflexivity|].
  unfold is_nan. apply negb_false_iff. unfold py_gt in Hgt.
  exact (float_ltb_eqb_refl_r _ _ Hgt).
Qed.

(** Over values that are all NaN it stays at [-inf]. *)
Lemma run_max_all_nan (vs : list float) :
  (forall v, In v vs -> is_nan v = true) -> run_max vs neg_inf = neg_inf.
Proof.
  intros Hall.
  destruct (run_max_spec vs neg_inf) as [[Heq _]|(_ & Hin & _)]; [exact Heq|].
  pose proof (Hall _ Hin) as Hn.
  rewrite run_max_neg_inf_not_nan in Hn. discriminate.
Qed.

(** C10 (amended): on a live Q-table, extract_v_table returns a new value
    table V (the heap is otherwise as it was) whose keys are exactly the
    states with an entry in the Q-table. For such a state s, V(s) is never
    NaN and no entry of s is greater than V(s); if an entry of s is a
    number (not NaN), V(s) is one of the entries of s, their maximum; if
    every entry of s is NaN, V(s) is -inf. *)
Theorem extract_v_table_is_max mdp q h Q :
  h !! q = Some (QT Q) ->
  exists V,
    extract_v_table mdp q h = (Ok (length h), h ++ [VT V]) /\
    (forall s, In s (dict_keys V) <-> exists a, In (s, a) (dict_keys Q)) /\
    (forall s m, dict_get V s = Some m ->
       is_nan m = false /\
       (forall a v, dict_get Q (s, a) = Some v -> py_gt v m = false) /\
       ((exists a v, dict_get Q (s, a) = Some v /\ is_nan v = false) ->
        exists a, dict_get Q (s, a) = Some m) /\
       ((forall a v, dict_get Q (s, a) = Some v -> is_nan v = true) ->
        m = neg_inf)).
Proof.
  intros Hq. exists (v_table_of Q).
  split; [now apply extract_v_table_run|]. split.
  - intros s. rewrite <- values_at_nonempty, <- dict_mem_true.
    unfold dict_mem. rewrite v_table_of_get.
    destruct (values_at Q s (dict_keys Q)); split; congruence.
  - intros s m Hm. pose proof (v_table_of_get Q s) as Hget.
    rewrite Hm in Hget.
    assert (Hrun : m = run_max (values_at Q s (dict_keys Q)) neg_inf).
    { destruct (values_at Q s (dict_keys Q)); [discriminate | congruence]. }
    rewrite Hrun.
    pose proof (run_max_is_max_at Q s) as Hmax.
    split; [apply run_max_neg_inf_not_nan|].
    split; [exact (proj1 Hmax)|].
    split; [now apply is_max_at_attained|].
    intros Hall. apply run_max_all_nan. intros v Hv.
    apply values_at_In in Hv. destruct Hv as [a Ha]. exact (Hall a v Ha).
Qed.

End ExtractVTableFacts.

(** C10, as stated, fails on a state whose entries are all NaN. Two
    updates with alpha = 1 of a transition into a state without entries
    turn Q(A, move) into -inf and then into NaN (0 * -inf); on that table
    extract_v_table maps A to -inf, which is not an entry of A, neither as
    the same float nor under ==. *)
Lemma extract_v_table_nan_entry_gives_neg_inf :
  q_update (Toy.one_step 0.8) 0%nat (Toy.A, Toy.move, 10, Toy.T) 1
    [QT [((Toy.A, Toy.move), 0)]]
  = (Ok tt, [QT [((Toy.A, Toy.move), neg_infinity)]]) /\
  q_update (Toy.one_step 0.8) 0%nat (Toy.A, Toy.move, 10, Toy.T) 1
    [QT [((Toy.A, Toy.move), neg_infinity)]]
  = (Ok tt, [QT [((Toy.A, Toy.move), nan)]]) /\
  extract_v_table (Toy.one_step 0.8) 0%nat [QT [((Toy.A, Toy.move), nan)]]
  = (Ok 1%nat,
     [QT [((Toy.A, Toy.move), nan)]; VT [(Toy.A, neg_infinity)]]) /\
  (forall a v,
     dict_get [((Toy.A, Toy.move), nan)] (Toy.A, a) = Some v ->
     v <> neg_infinity /\ py_eq v neg_infinity = false).
Proof.
  split; [reflexivity|]. split; [reflexivity|]. split; [reflexivity|].
  intros [|] v Hv; vm_compute in Hv; [|discriminate].
  injection Hv as <-. split; [discriminate | reflexivity].
Qed.

(** C10 (amended), on a table with two numbers for A and a NaN alone
    for B. *)
Lemma extract_v_table_is_max_witness :
  exists V,
    extract_v_table (Toy.one_step 0.8) 0%nat
      [QT [((Toy.A, Toy.move), 1); ((Toy.B, Toy.move), nan);
           ((Toy.A, Toy.stay), 3)]]
    = (Ok 1%nat,
       [QT [((Toy.A, Toy.move), 1); ((Toy.B, Toy.move), nan);
            ((Toy.A, Toy.stay), 3)]] ++ [VT V]) /\
    (forall s, In s (dict_keys V) <->
               exists a, In (s, a) (dict_keys
                 [((Toy.A, Toy.move), 1); ((Toy.B, Toy.move), nan);
                  ((Toy.A, Toy.stay), 3)])) /\
    (forall s m, dict_get V s = Some m ->
       is_nan m = false /\
       (forall a v,
          dict_get [((Toy.A, Toy.move), 1); ((Toy.B, Toy.move), nan);
                    ((Toy.A, Toy.stay), 3)] (s, a) = Some v ->
          py_gt v m = false) /\
       ((exists a v,
           dict_get [((Toy.A, Toy.move), 1); ((Toy.B, Toy.move), nan);
                     ((Toy.A, Toy.stay), 3)] (s, a) = Some v /\
           is_nan v = false) ->
        exists a,
          dict_get [((Toy.A, Toy.move), 1); ((Toy.B, Toy.move), nan);
                    ((Toy.A, Toy.stay), 3)] (s, a) = Some m) /\
       ((forall a v,
           dict_get [((Toy.A, Toy.move), 1); ((Toy.B, Toy.move), nan);
                     ((Toy.A, Toy.stay), 3)] (s, a) = Some v ->
           is_nan v = true) ->
        m = neg_inf)).
Proof.
  apply (extract_v_table_is_max (Toy.one_step 0.8) 0%nat
           [QT [((Toy.A, Toy.move), 1); ((Toy.B, Toy.move), nan);
                ((Toy.A, Toy.stay), 3)]]
           [((Toy.A, Toy.move), 1); ((Toy.B, Toy.move), nan);
            ((Toy.A, Toy.stay), 3)]).
  reflexivity.
Defined.

(** * Further properties *)

(** ** Loops with an invariant, whatever their outcome *)

Section LoopRules.
Context {State Action : Type} `{EqDecision State} `{EqDecision Action}.
#[local] Abbreviation heap := (list (obj (State := State) (Action := Action))).
#[local] Abbreviation obj := (obj (State := State) (Action := Action)).
#[local] Abbreviation M := (M (State := State) (Action := Action)).

(** [I] is indexed by the items already visited; [E] is what holds when
    the loop raises. *)
Lemma for_fold_inv {A S} (I : list A -> S -> heap -> Prop)
    (E : exn -> heap -> Prop) (xs : list A) (body : A -> S -> M S) :
  (forall pre x s h, (exists post, xs = pre ++ x :: post) -> I pre s h ->
     match body x s h with
     | (Ok s', h') => I (pre ++ [x]) s' h'
     | (Raise e, h') => E e h'
     end) ->
  forall s h, I [] s h ->
    match for_fold xs body s h with
    | (Ok s', h') => I xs s' h'
    | (Raise e, h') => E e h'
    end.
Proof.
  intros Hbody.
  assert (Hgen : forall post pre s h, xs = pre ++ post -> I pre s h ->
            match for_fold post body s h with
            | (Ok s', h') => I xs s' h'
            | (Raise e, h') => E e h'
            end).
  { induction post as [|x post IH]; intros pre s h Hxs HI; simpl.
    - rewrite app_nil_r in Hxs. now subst pre.
    - specialize (Hbody pre x s h (ex_intro _ post Hxs) HI).
      rewrite bind_run. destruct (body x s h) as [[s1|e] h1]; [|exact Hbody].
      apply (IH (pre ++ [x])); [|exact Hbody].
      now rewrite <- app_assoc. }
  intros s h HI. now apply (Hgen xs []).
Qed.

(** The two tables of a sweep are the last two objects of the heap. *)
Lemma heap_lookup_v (h : heap) (a b : obj) :
  (h ++ [a; b]) !! length h = Some a.
Proof. now apply list_lookup_middle. Qed.

Lemma heap_lookup_q (h : heap) (a b : obj) :
  (h ++ [a; b]) !! S (length h) = Some b.
Proof.
  etrans; [apply lookup_app_r; lia|].
  now replace (S (length h) - length h)%nat with 1%nat by lia.
Qed.

Lemma heap_set_v (h : heap) (a b o : obj) :
  <[length h := o]> (h ++ [a; b]) = h ++ [o; b].
Proof.
  etrans; [apply insert_app_r_alt; lia|].
  now replace (length h - length h)%nat with 0%nat by lia.
Qed.

Lemma heap_set_q (h : heap) (a b o : obj) :
  <[S (length h) := o]> (h ++ [a; b]) = h ++ [a; o].
Proof.
  etrans; [apply insert_app_r_alt; lia|].
  now replace (S (length h) - length h)%nat with 1%nat by lia.
Qed.

End LoopRules.

(** ** value_iteration on a well-formed call, as a fold *)

Section SweepFacts.
Context {State Action : Type} `{EqDecision State} `{EqDecision Action}.
#[local] Abbreviation heap := (list (obj (State := State) (Action := Action))).
#[local] Abbreviation TohMdp := (TohMdp (State := State) (Action := Action)).
#[local] Abbreviation VTable := (VTable (State := State)).
#[local] Abbreviation QTable := (QTable (State := State) (Action := Action)).
Implicit Types (mdp : TohMdp) (h : heap) (v : ref) (V NV : VTable) (Q : QTable).

Lemma fill_fold_get_in mdp NV state acts Q a :
  In a acts ->
  dict_get (fold_left (fun Q action =>
              dict_set Q (state, action) (q_value_of mdp NV state action))
              acts Q) (state, a)
  = Some (q_value_of mdp NV state a).
Proof.
  revert Q. induction acts as [|x acts IH]; intros Q Hin; [destruct Hin|].
  simpl. destruct (in_dec (fun a b => decide (a = b)) a acts) as [Ha|Ha].
  - now apply IH.
  - destruct Hin as [->|Hin]; [|contradiction].
    clear IH. revert Q. induction acts as [|y acts IH]; intros Q; simpl.
    + apply dict_get_set_eq.
    + assert (Hy : y <> a) by (intros ->; apply Ha; now left).
      assert (Ha' : ~ In a acts) by (intros Hi; apply Ha; now right).
      specialize (IH Ha').
      assert (Hswap : forall Q0,
                dict_get (fold_left (fun Q action =>
                  dict_set Q (state, action) (q_value_of mdp NV state action))
                  acts Q0) (state, a) = dict_get Q0 (state, a)).
      { clear IH. induction acts as [|z acts IHz]; intros Q0; [reflexivity|].
        simpl. rewrite IHz.
        - apply dict_get_set_ne. intros [= ->]. apply Ha'. now left.
        - intros [->|Hi]; apply Ha; [now left | right; now right].
        - intros Hi. apply Ha'. now right. }
      rewrite Hswap, dict_get_set_ne by congruence. apply dict_get_set_eq.
Qed.

Lemma fill_fold_get_other mdp NV state acts Q s' a :
  s' <> state \/ ~ In a acts ->
  dict_get (fold_left (fun Q action =>
              dict_set Q (state, action) (q_value_of mdp NV state action))
              acts Q) (s', a)
  = dict_get Q (s', a).
Proof.
  revert Q. induction acts as [|x acts IH]; intros Q Hor; [reflexivity|].
  simpl. rewrite IH.
  - apply dict_get_set_ne. intros [= -> ->].
    destruct Hor as [Hne|Hnin]; [congruence | apply Hnin; now left].
  - destruct Hor as [Hne|Hnin]; [now left | right].
    intros Hi. apply Hnin. now right.
Qed.

Lemma fill_q_get_in mdp NV state Q a :
  In a (actions mdp) ->
  dict_get (fill_q mdp NV state Q) (state, a)
  = Some (q_value_of mdp NV state a).
Proof. apply fill_fold_get_in. Qed.

Lemma fill_q_get_other mdp NV state Q s' a :
  s' <> state \/ ~ In a (actions mdp) ->
  dict_get (fill_q mdp NV state Q) (s', a) = dict_get Q (s', a).
Proof. apply fill_fold_get_other. Qed.

(** The loop over the actions, on a table that covers the successors. *)
Lemma vi_fill_loop_run mdp h NV Q state acts :
  (forall a, In a acts -> In (fst (step mdp state a)) (dict_keys NV)) ->
  for_ acts (vi_fill mdp (length h) (S (length h)) state)
    (h ++ [VT NV; QT Q])
  = (Ok tt,
     h ++ [VT NV;
           QT (fold_left (fun Q action =>
                 dict_set Q (state, action) (q_value_of mdp NV state action))
                 acts Q)]).
Proof.
  unfold for_. revert Q. induction acts as [|a acts IH]; intros Q Hsucc;
    [reflexivity|].
  simpl. rewrite bind_run. unfold vi_fill at 1.
  pose proof (Hsucc a (or_introl eq_refl)) as Ha.
  assert (Hqv : q_value_of mdp NV state a
                = 0.8 * (reward mdp state a (fst (step mdp state a))
                         + default 0 (dict_get NV (fst (step mdp state a))))).
  { unfold q_value_of. now destruct (step mdp state a). }
  rewrite Hqv.
  destruct (step mdp state a) as [next_state rw]. simpl in Ha |- *.
  destruct (dict_keys_get _ _ Ha) as [x Hx].
  rewrite bind_run, (v_getitem_run _ _ _ _ (heap_lookup_v h _ _)), Hx.
  rewrite (q_setitem_run _ _ _ _ _ (heap_lookup_q h _ _)), heap_set_q.
  apply IH. intros b Hb. apply Hsucc. now right.
Qed.

Lemma dict_set_present_keys {K X : Type} `{EqDecision K} (d : dict K X) k x :
  In k (dict_keys d) -> dict_keys (dict_set d k x) = dict_keys d.
Proof.
  unfold dict_keys. induction d as [|[k' v'] d IH]; simpl; [intros []|].
  intros Hin. destruct (decide (k' = k)) as [->|Hne]; [reflexivity|].
  simpl. f_equal. apply IH. destruct Hin as [Heq|Hin]; [congruence | exact Hin].
Qed.

(** One round of the loop over the states. *)
Lemma vi_body_run mdp v h V NV Q state d :
  h !! v = Some (VT V) -> vi_well_formed mdp V ->
  In state (nonterminal_states mdp) -> dict_keys NV = dict_keys V ->
  vi_body mdp v (length h) (S (length h)) state d (h ++ [VT NV; QT Q])
  = (let '(NV', Q', d') := sweep_state mdp V (NV, Q, d) state in
     (Ok d', h ++ [VT NV'; QT Q'])).
Proof.
  intros Hv (Hne & Hnt & Hsucc) Hstate Hkeys.
  unfold vi_body, sweep_state.
  assert (Hcover : forall a, In a (actions mdp) ->
                     In (fst (step mdp state a)) (dict_keys NV)).
  { intros a Ha. rewrite Hkeys. now apply Hsucc. }
  rewrite (bind_ok _ _ _ _ _
             (vi_fill_loop_run mdp h NV Q state (actions mdp) Hcover)).
  fold (fill_q mdp NV state Q). set (Q' := fill_q mdp NV state Q).
  assert (Hqs : map_m (fun action => q_getitem (S (length h)) (state, action))
                  (actions mdp) (h ++ [VT NV; QT Q'])
                = (Ok (map (fun a => default 0 (dict_get Q' (state, a)))
                           (actions mdp)), h ++ [VT NV; QT Q'])).
  { apply map_m_pure. intros a Ha.
    rewrite (q_getitem_run _ _ _ _ (heap_lookup_q h _ _)).
    subst Q'. now rewrite (fill_q_get_in mdp NV state Q a Ha). }
  rewrite (bind_ok _ _ _ _ _ Hqs).
  destruct (py_max_map_ok (fun a => default 0 (dict_get Q' (state, a))) _ Hne)
    as [m Hm].
  unfold max_q. rewrite Hm.
  rewrite bind_run. unfold lift at 1.
  rewrite bind_run, (v_setitem_run _ _ _ _ _ (heap_lookup_v h _ _)), heap_set_v.
  rewrite bind_run, (v_getitem_run _ _ _ _ (heap_lookup_v h _ _)),
    dict_get_set_eq.
  destruct (dict_keys_get _ _ (Hnt state Hstate)) as [old Hold].
  rewrite bind_run,
    (v_getitem_run _ _ _ _ (lookup_app_l_Some h _ v _ Hv)), Hold.
  reflexivity.
Qed.

Lemma sweep_state_keys mdp V NV Q d state :
  In state (dict_keys V) -> dict_keys NV = dict_keys V ->
  dict_keys (fst (fst (sweep_state mdp V (NV, Q, d) state))) = dict_keys V.
Proof.
  intros Hin Hkeys. simpl. rewrite dict_set_present_keys; [exact Hkeys|].
  now rewrite Hkeys.
Qed.

Lemma vi_loop_run mdp v h V states NV Q d :
  h !! v = Some (VT V) -> vi_well_formed mdp V ->
  (forall s, In s states -> In s (nonterminal_states mdp)) ->
  dict_keys NV = dict_keys V ->
  for_fold states (vi_body mdp v (length h) (S (length h))) d
    (h ++ [VT NV; QT Q])
  = (let '(NV', Q', d') := sweep_from mdp V states (NV, Q, d) in
     (Ok d', h ++ [VT NV'; QT Q'])).
Proof.
  intros Hv Hwf. revert NV Q d.
  induction states as [|state states IH]; intros NV Q d Hsub Hkeys;
    [reflexivity|].
  simpl for_fold. rewrite bind_run.
  rewrite (vi_body_run mdp v h V NV Q state d Hv Hwf
             (Hsub _ (or_introl eq_refl)) Hkeys).
  change (sweep_from mdp V (state :: states) (NV, Q, d))
    with (sweep_from mdp V states (sweep_state mdp V (NV, Q, d) state)).
  pose proof (sweep_state_keys mdp V NV Q d state) as Hk.
  destruct (sweep_state mdp V (NV, Q, d) state) as [[NV1 Q1] d1].
  simpl in Hk. apply IH.
  - intros s Hs. apply Hsub. now right.
  - apply Hk; [|exact Hkeys]. destruct Hwf as (_ & Hnt & _).
    apply Hnt, Hsub. now left.
Qed.

(** On a well-formed call value_iteration returns, and what it returns is
    the fold. *)
Lemma value_iteration_sweep mdp v h V :
  h !! v = Some (VT V) -> vi_well_formed mdp V ->
  value_iteration mdp v h
  = (let '(NV, Q, d) := sweep mdp V in
     (Ok (length h, S (length h), d), h ++ [VT NV; QT Q])).
Proof.
  intros Hv Hwf. rewrite (value_iteration_run _ _ _ _ Hv).
  rewrite (vi_loop_run mdp v h V (nonterminal_states mdp) V [] 0 Hv Hwf
             (fun s Hs => Hs) eq_refl).
  unfold sweep. now destruct (sweep_from _ _ _ _) as [[NV Q] d].
Qed.

End SweepFacts.

(** ** More on the order and the arithmetic of floats *)

Section FloatMore.

(** [x - x] is [+0.0] or NaN: its absolute value is not greater than 0. *)
Lemma float_abs_sub_self (x : float) : py_gt (abs (x - x)) 0 = false.
Proof.
  unfold py_gt. rewrite FloatAxioms.ltb_spec, abs_spec, sub_spec.
  change (Prim2SF 0) with (S754_zero false).
  destruct (Prim2SF x) as [[|]|[|]| |s m e]; try reflexivity.
  unfold SF64sub, SFsub. rewrite Z.sub_diag. reflexivity.
Qed.

Lemma lex_lt_total (a b : Z * Z * Z) : lex_lt a b \/ a = b \/ lex_lt b a.
Proof.
  destruct a as [[a1 a2] a3], b as [[b1 b2] b3]. simpl.
  destruct (Z.lt_trichotomy a1 b1) as [?|[?|?]];
    destruct (Z.lt_trichotomy a2 b2) as [?|[?|?]];
    destruct (Z.lt_trichotomy a3 b3) as [?|[?|?]];
    subst; auto; try (left; lia); try (right; right; lia).
Qed.

(** Two numbers neither of which is less than the other are equal. *)
Lemma float_eqb_of_not_ltb (x y : float) :
  (x =? x) = true -> (y =? y) = true ->
  (x <? y) = false -> (y <? x) = false -> (x =? y) = true.
Proof.
  rewrite !float_eqb_key. intros (kx & Hx & _) (ky & Hy & _) Hxy Hyx.
  destruct (lex_lt_total kx ky) as [Hlt|[->|Hlt]].
  - rewrite (proj2 (float_ltb_key x y)) in Hxy; [discriminate|].
    now exists kx, ky.
  - now exists ky.
  - rewrite (proj2 (float_ltb_key y x)) in Hyx; [discriminate|].
    now exists ky, kx.
Qed.

Lemma float_eqb_refl_l (x y : float) : (x =? y) = true -> (x =? x) = true.
Proof. rewrite !float_eqb_key. intros (k & Hx & _). now exists k. Qed.

End FloatMore.

(** ** The fold of the sweep *)

Section SweepFold.
Context {State Action : Type} `{EqDecision State} `{EqDecision Action}.
#[local] Abbreviation TohMdp := (TohMdp (State := State) (Action := Action)).
#[local] Abbreviation VTable := (VTable (State := State)).
#[local] Abbreviation QTable := (QTable (State := State) (Action := Action)).
Implicit Types (mdp : TohMdp) (V NV : VTable) (Q : QTable) (d : float).

Lemma sweep_from_cons mdp V state states acc :
  sweep_from mdp V (state :: states) acc
  = sweep_from mdp V states (sweep_state mdp V acc state).
Proof. reflexivity. Qed.

Lemma sweep_from_app mdp V l1 l2 acc :
  sweep_from mdp V (l1 ++ l2) acc
  = sweep_from mdp V l2 (sweep_from mdp V l1 acc).
Proof. unfold sweep_from. apply fold_left_app. Qed.

Lemma sweep_from_keys mdp V states NV Q d :
  (forall s, In s states -> In s (dict_keys V)) ->
  dict_keys NV = dict_keys V ->
  dict_keys (fst (fst (sweep_from mdp V states (NV, Q, d)))) = dict_keys V.
Proof.
  revert NV Q d. induction states as [|s states IH]; intros NV Q d Hsub Hkeys;
    [exact Hkeys|].
  rewrite sweep_from_cons.
  pose proof (sweep_state_keys mdp V NV Q d s (Hsub _ (or_introl eq_refl)) Hkeys)
    as Hk.
  destruct (sweep_state mdp V (NV, Q, d) s) as [[NV1 Q1] d1]. simpl in Hk.
  apply IH; [|exact Hk]. intros s' Hs'. apply Hsub. now right.
Qed.

(** A round writes the value of its own state only. *)
Lemma sweep_from_get_v mdp V states NV Q d k :
  ~ In k states ->
  dict_get (fst (fst (sweep_from mdp V states (NV, Q, d)))) k = dict_get NV k.
Proof.
  revert NV Q d. induction states as [|s states IH]; intros NV Q d Hnin;
    [reflexivity|].
  rewrite sweep_from_cons. unfold sweep_state.
  rewrite IH by (intros Hi; apply Hnin; now right).
  apply dict_get_set_ne. intros ->. apply Hnin. now left.
Qed.

(** A round writes the Q-values of its own state only. *)
Lemma sweep_from_get_q mdp V states NV Q d s a :
  ~ In s states ->
  dict_get (snd (fst (sweep_from mdp V states (NV, Q, d)))) (s, a)
  = dict_get Q (s, a).
Proof.
  revert NV Q d. induction states as [|s0 states IH]; intros NV Q d Hnin;
    [reflexivity|].
  rewrite sweep_from_cons. unfold sweep_state.
  rewrite IH by (intros Hi; apply Hnin; now right).
  apply fill_q_get_other. left. intros ->. apply Hnin. now left.
Qed.

Lemma fill_q_keys mdp NV state Q s a :
  In (s, a) (dict_keys (fill_q mdp NV state Q)) <->
  In (s, a) (dict_keys Q) \/ (s = state /\ In a (actions mdp)).
Proof.
  rewrite <- !dict_mem_true. unfold dict_mem.
  destruct (decide (s = state)) as [->|Hne].
  - destruct (in_dec (fun x y => decide (x = y)) a (actions mdp)) as [Ha|Ha].
    + rewrite (fill_q_get_in mdp NV state Q a Ha). split; auto.
    + rewrite (fill_q_get_other mdp NV state Q state a (or_intror Ha)).
      split; [auto | intros [Hq|[_ Hin]]; [exact Hq | contradiction]].
  - rewrite (fill_q_get_other mdp NV state Q s a (or_introl Hne)).
    split; [auto | intros [Hq|[Heq _]]; [exact Hq | contradiction]].
Qed.

Lemma sweep_from_keys_q mdp V states NV Q d s a :
  In (s, a) (dict_keys (snd (fst (sweep_from mdp V states (NV, Q, d))))) <->
  In (s, a) (dict_keys Q) \/ (In s states /\ In a (actions mdp)).
Proof.
  revert NV Q d. induction states as [|s0 states IH]; intros NV Q d.
  - simpl. split; [auto | intros [Hq|[[] _]]; exact Hq].
  - rewrite sweep_from_cons. unfold sweep_state. rewrite IH, fill_q_keys.
    simpl. split.
    + intros [[Hq|[-> Ha]]|[Hs Ha]]; auto.
    + intros [Hq|[[->|Hs] Ha]]; auto.
Qed.

(** After its round, the value of a state is the maximum of its Q-values
    as [max] finds it, for good when the state is not swept again. *)
Lemma sweep_from_max mdp V states NV Q d s :
  List.NoDup states -> In s states ->
  let '(NV', Q', _) := sweep_from mdp V states (NV, Q, d) in
  dict_get NV' s = Some (max_q mdp Q' s).
Proof.
  revert NV Q d. induction states as [|s0 states IH]; intros NV Q d Hnd Hin;
    [destruct Hin|].
  inversion Hnd as [|? ? Hnin Hnd']; subst.
  rewrite sweep_from_cons.
  destruct (decide (s0 = s)) as [->|Hne].
  - unfold sweep_state.
    pose proof (sweep_from_get_v mdp V states
                  (dict_set NV s (max_q mdp (fill_q mdp NV s Q) s))
                  (fill_q mdp NV s Q)
                  (py_max2 d (abs (default 0 (dict_get (dict_set NV s
                     (max_q mdp (fill_q mdp NV s Q) s)) s)
                     - default 0 (dict_get V s)))) s Hnin) as Hv.
    pose proof (fun a => sweep_from_get_q mdp V states
                  (dict_set NV s (max_q mdp (fill_q mdp NV s Q) s))
                  (fill_q mdp NV s Q)
                  (py_max2 d (abs (default 0 (dict_get (dict_set NV s
                     (max_q mdp (fill_q mdp NV s Q) s)) s)
                     - default 0 (dict_get V s)))) s a Hnin) as Hq.
    destruct (sweep_from mdp V states _) as [[NV' Q'] d']. simpl in Hv, Hq.
    rewrite Hv, dict_get_set_eq. f_equal. unfold max_q.
    assert (Hmap : map (fun a => default 0 (dict_get Q' (s, a))) (actions mdp)
                   = map (fun a => default 0 (dict_get (fill_q mdp NV s Q) (s, a)))
                       (actions mdp)).
    { apply map_ext. intros a. now rewrite Hq. }
    now rewrite Hmap.
  - destruct Hin as [Heq|Hin]; [contradiction|].
    destruct (sweep_state mdp V (NV, Q, d) s0) as [[NV1 Q1] d1].
    now apply IH.
Qed.

End SweepFold.

(** ** The results of the sweep *)

Section SweepResults.
Context {State Action : Type} `{EqDecision State} `{EqDecision Action}.
#[local] Abbreviation TohMdp := (TohMdp (State := State) (Action := Action)).
#[local] Abbreviation VTable := (VTable (State := State)).
#[local] Abbreviation QTable := (QTable (State := State) (Action := Action)).
Implicit Types (mdp : TohMdp) (V NV : VTable) (Q : QTable) (d : float).

Lemma sweep_keys mdp V :
  vi_well_formed mdp V -> dict_keys (fst (fst (sweep mdp V))) = dict_keys V.
Proof.
  intros Hwf.
  exact (sweep_from_keys mdp V (nonterminal_states mdp) V [] 0
           (proj1 (proj2 Hwf)) eq_refl).
Qed.

Lemma sweep_keys_q mdp V s a :
  In (s, a) (dict_keys (snd (fst (sweep mdp V)))) <->
  In s (nonterminal_states mdp) /\ In a (actions mdp).
Proof.
  etrans; [exact (sweep_from_keys_q mdp V (nonterminal_states mdp) V [] 0 s a)|].
  simpl. split; [intros [[]|Hsa]; exact Hsa | auto].
Qed.

Lemma sweep_from_max_proj mdp V states NV Q d s :
  List.NoDup states -> In s states ->
  dict_get (fst (fst (sweep_from mdp V states (NV, Q, d)))) s
  = Some (max_q mdp (snd (fst (sweep_from mdp V states (NV, Q, d)))) s).
Proof.
  intros Hnd Hs. pose proof (sweep_from_max mdp V states NV Q d s Hnd Hs) as Hm.
  now destruct (sweep_from mdp V states (NV, Q, d)) as [[NV' Q'] d'].
Qed.

Lemma sweep_max mdp V s :
  List.NoDup (nonterminal_states mdp) -> In s (nonterminal_states mdp) ->
  dict_get (fst (fst (sweep mdp V))) s
  = Some (max_q mdp (snd (fst (sweep mdp V))) s).
Proof.
  intros Hnd Hs.
  exact (sweep_from_max_proj mdp V (nonterminal_states mdp) V [] 0 s Hnd Hs).
Qed.

(** The Q-values of [s], swept after [pre] and before [post], from any
    start of the fold. *)
Lemma sweep_from_q_values mdp V pre s post NV0 Q0 d0 a :
  List.NoDup (pre ++ s :: post) ->
  (forall k, In k pre -> In k (dict_keys V)) ->
  dict_keys NV0 = dict_keys V ->
  In (fst (step mdp s a)) (dict_keys V) -> In a (actions mdp) ->
  exists w,
    (In (fst (step mdp s a)) pre ->
     dict_get (fst (fst (sweep_from mdp V (pre ++ s :: post) (NV0, Q0, d0))))
       (fst (step mdp s a)) = Some w) /\
    (~ In (fst (step mdp s a)) pre ->
     dict_get NV0 (fst (step mdp s a)) = Some w) /\
    dict_get (snd (fst (sweep_from mdp V (pre ++ s :: post) (NV0, Q0, d0))))
      (s, a)
    = Some (0.8 * (reward mdp s a (fst (step mdp s a)) + w)).
Proof.
  intros Hnd Hsub Hkeys0 Hsucc Ha.
  rewrite sweep_from_app, sweep_from_cons.
  apply NoDup_remove in Hnd. destruct Hnd as [Hnd Hs].
  assert (Hspost : ~ In s post) by (intros Hi; apply Hs, in_or_app; now right).
  assert (Hdisj : forall k, In k pre -> ~ In k post).
  { intros k Hk Hk'. clear -Hnd Hk Hk'. induction pre as [|x pre IH].
    - destruct Hk.
    - simpl in Hnd. inversion Hnd as [|? ? Hx Hnd']; subst.
      destruct Hk as [->|Hk]; [apply Hx, in_or_app; now right | now apply IH]. }
  assert (Hspre : ~ In s pre) by (intros Hi; apply Hs, in_or_app; now left).
  pose proof (sweep_from_keys mdp V pre NV0 Q0 d0 Hsub Hkeys0) as Hkeys.
  pose proof (fun k => sweep_from_get_v mdp V pre NV0 Q0 d0 k) as Hold.
  destruct (sweep_from mdp V pre (NV0, Q0, d0)) as [[NVp Qp] dp].
  simpl in Hkeys, Hold. unfold sweep_state.
  set (Q1 := fill_q mdp NVp s Qp).
  set (NV1 := dict_set NVp s (max_q mdp Q1 s)).
  set (d1 := py_max2 dp _).
  rewrite (sweep_from_get_q mdp V post NV1 Q1 d1 s a Hspost).
  assert (Hin : In (fst (step mdp s a)) (dict_keys NVp)) by now rewrite Hkeys.
  destruct (dict_keys_get _ _ Hin) as [w Hw]. exists w.
  split; [|split].
  - intros Hpre.
    rewrite (sweep_from_get_v mdp V post NV1 Q1 d1 _ (Hdisj _ Hpre)).
    subst NV1. rewrite dict_get_set_ne; [exact Hw|].
    intros Heq. apply Hspre. now rewrite Heq.
  - intros Hnpre. now rewrite <- (Hold _ Hnpre).
  - subst Q1. rewrite (fill_q_get_in mdp NVp s Qp a Ha).
    f_equal. unfold q_value_of.
    destruct (step mdp s a) as [next rw]. simpl in Hw |- *. now rewrite Hw.
Qed.

Lemma sweep_q_values mdp V pre s post a :
  vi_well_formed mdp V ->
  List.NoDup (nonterminal_states mdp) ->
  nonterminal_states mdp = pre ++ s :: post -> In a (actions mdp) ->
  exists w,
    (In (fst (step mdp s a)) pre ->
     dict_get (fst (fst (sweep mdp V))) (fst (step mdp s a)) = Some w) /\
    (~ In (fst (step mdp s a)) pre ->
     dict_get V (fst (step mdp s a)) = Some w) /\
    dict_get (snd (fst (sweep mdp V))) (s, a)
    = Some (0.8 * (reward mdp s a (fst (step mdp s a)) + w)).
Proof.
  intros (Hne & Hnt & Hsucc) Hnd Hsplit Ha. unfold sweep.
  rewrite Hsplit in Hnd |- *.
  assert (Hs : In s (nonterminal_states mdp)).
  { rewrite Hsplit. apply in_or_app. right. now left. }
  apply (sweep_from_q_values mdp V pre s post V [] 0 a Hnd);
    [|reflexivity | now apply Hsucc | exact Ha].
  intros k Hk. apply Hnt. rewrite Hsplit. apply in_or_app. now left.
Qed.

Lemma dict_set_same {K X : Type} `{EqDecision K} (d0 : dict K X) k x :
  dict_get d0 k = Some x -> dict_set d0 k x = d0.
Proof.
  induction d0 as [|[k' x'] d0 IH]; simpl; [discriminate|].
  destruct (decide (k' = k)) as [->|Hne].
  - now intros [= ->].
  - intros Hg. now rewrite IH.
Qed.

Lemma sweep_from_fixed mdp V states Q :
  (forall s, In s states ->
     exists x, dict_get V s = Some x /\
               py_max (map (q_value_of mdp V s) (actions mdp)) = Ok x) ->
  exists Q', sweep_from mdp V states (V, Q, 0) = (V, Q', 0).
Proof.
  revert Q. induction states as [|s states IH]; intros Q Hfix.
  - now exists Q.
  - rewrite sweep_from_cons.
    destruct (Hfix s (or_introl eq_refl)) as (x & Hx & Hmax).
    assert (Hstep : sweep_state mdp V (V, Q, 0) s = (V, fill_q mdp V s Q, 0)).
    { unfold sweep_state.
      assert (Hm : max_q mdp (fill_q mdp V s Q) s = x).
      { unfold max_q.
        assert (Hmap : map (fun a => default 0
                                (dict_get (fill_q mdp V s Q) (s, a)))
                         (actions mdp)
                       = map (q_value_of mdp V s) (actions mdp)).
        { apply map_ext_in. intros a Ha.
          now rewrite (fill_q_get_in mdp V s Q a Ha). }
        now rewrite Hmap, Hmax. }
      rewrite Hm, (dict_set_same V s x Hx), Hx. simpl default.
      unfold py_max2. now rewrite float_abs_sub_self. }
    rewrite Hstep. apply IH. intros s' Hs'. apply Hfix. now right.
Qed.

Lemma sweep_fixed mdp V :
  (forall s, In s (nonterminal_states mdp) ->
     exists x, dict_get V s = Some x /\
               py_max (map (q_value_of mdp V s) (actions mdp)) = Ok x) ->
  exists Q, sweep mdp V = (V, Q, 0).
Proof.
  intros Hfix. exact (sweep_from_fixed mdp V (nonterminal_states mdp) [] Hfix).
Qed.

Lemma Forall2_lookup_default {A} (f : A -> option float) (l : list A) :
  (forall a, In a l -> exists x, f a = Some x) ->
  List.Forall2 (fun a x => f a = Some x) l (map (fun a => default 0 (f a)) l).
Proof.
  induction l as [|a l IH]; intros Hall; simpl; constructor.
  - destruct (Hall a (or_introl eq_refl)) as [x Hx]. now rewrite Hx.
  - apply IH. intros b Hb. apply Hall. now right.
Qed.

End SweepResults.

(** ** What value_iteration returns on a well-formed call *)

Section ValueIterationResults.
Context {State Action : Type} `{EqDecision State} `{EqDecision Action}.
#[local] Abbreviation heap := (list (obj (State := State) (Action := Action))).
#[local] Abbreviation TohMdp := (TohMdp (State := State) (Action := Action)).
#[local] Abbreviation VTable := (VTable (State := State)).
#[local] Abbreviation QTable := (QTable (State := State) (Action := Action)).
Implicit Types (mdp : TohMdp) (h : heap) (v : ref) (V NV : VTable) (Q : QTable).

(** X1: on a table that covers the nonterminal states and their
    successors, with at least one action, value_iteration returns; the new
    value table has the keys of the input table, in the same order, and
    the new Q-table has an entry for exactly the pairs of a nonterminal
    state and an action. *)
Theorem value_iteration_tables_cover mdp v h V :
  h !! v = Some (VT V) -> vi_well_formed mdp V ->
  exists NV Q d,
    value_iteration mdp v h
    = (Ok (length h, S (length h), d), h ++ [VT NV; QT Q]) /\
    dict_keys NV = dict_keys V /\
    (forall s a, In (s, a) (dict_keys Q) <->
                 In s (nonterminal_states mdp) /\ In a (actions mdp)).
Proof.
  intros Hv Hwf. rewrite (value_iteration_sweep mdp v h V Hv Hwf).
  pose proof (sweep_keys mdp V Hwf) as Hk.
  pose proof (sweep_keys_q mdp V) as Hq.
  destruct (sweep mdp V) as [[NV Q] d]. simpl in Hk, Hq.
  exists NV, Q, d. split; [reflexivity|]. split; [exact Hk | exact Hq].
Qed.

(** X2: when no nonterminal state is listed twice, the two tables that a
    well-formed call returns agree: the new value of every nonterminal
    state is [max] of its entries in the new Q-table, taken in the order
    of the actions. *)
Theorem value_iteration_value_is_max_of_q mdp v h V :
  h !! v = Some (VT V) -> vi_well_formed mdp V ->
  List.NoDup (nonterminal_states mdp) ->
  exists NV Q d,
    value_iteration mdp v h
    = (Ok (length h, S (length h), d), h ++ [VT NV; QT Q]) /\
    forall s, In s (nonterminal_states mdp) ->
      exists qs m,
        List.Forall2 (fun a x => dict_get Q (s, a) = Some x) (actions mdp) qs /\
        py_max qs = Ok m /\ dict_get NV s = Some m.
Proof.
  intros Hv Hwf Hnd. rewrite (value_iteration_sweep mdp v h V Hv Hwf).
  pose proof (fun s => sweep_max mdp V s Hnd) as Hmax.
  pose proof (sweep_keys_q mdp V) as Hq.
  destruct (sweep mdp V) as [[NV Q] d]. simpl in Hmax, Hq.
  exists NV, Q, d. split; [reflexivity|].
  intros s Hs.
  exists (map (fun a => default 0 (dict_get Q (s, a))) (actions mdp)),
         (max_q mdp Q s).
  split; [|split; [|exact (Hmax s Hs)]].
  - apply Forall2_lookup_default. intros a Ha.
    apply dict_keys_get, Hq. now split.
  - unfold max_q.
    destruct (py_max_map_ok (fun a => default 0 (dict_get Q (s, a)))
                (actions mdp) (proj1 Hwf)) as [m Hm].
    now rewrite Hm.
Qed.

(** X3: the sweep is in place. When no nonterminal state is listed twice
    and [s] comes after the states [pre], a well-formed call returns
    Q(s, a) = 0.8 * (reward(s, a, s') + w) where s' is the successor and
    w is the new value of s' when s' is one of [pre], and its value in
    the input table otherwise. *)
Theorem value_iteration_q_values mdp v h V pre s post :
  h !! v = Some (VT V) -> vi_well_formed mdp V ->
  List.NoDup (nonterminal_states mdp) ->
  nonterminal_states mdp = pre ++ s :: post ->
  exists NV Q d,
    value_iteration mdp v h
    = (Ok (length h, S (length h), d), h ++ [VT NV; QT Q]) /\
    forall a, In a (actions mdp) ->
      exists w,
        (In (fst (step mdp s a)) pre ->
         dict_get NV (fst (step mdp s a)) = Some w) /\
        (~ In (fst (step mdp s a)) pre ->
         dict_get V (fst (step mdp s a)) = Some w) /\
        dict_get Q (s, a)
        = Some (0.8 * (reward mdp s a (fst (step mdp s a)) + w)).
Proof.
  intros Hv Hwf Hnd Hsplit. rewrite (value_iteration_sweep mdp v h V Hv Hwf).
  pose proof (fun a => sweep_q_values mdp V pre s post a Hwf Hnd Hsplit) as Hq.
  destruct (sweep mdp V) as [[NV Q] d]. simpl in Hq.
  exists NV, Q, d. split; [reflexivity | exact Hq].
Qed.

(** X4: a table that is a fixed point of the update, V(s) being [max]
    over the actions of 0.8 * (reward(s, a, s') + V(s')) for every
    nonterminal s, is returned as it is, with max_delta = 0. *)
Theorem value_iteration_fixed_point mdp v h V :
  h !! v = Some (VT V) -> vi_well_formed mdp V ->
  (forall s, In s (nonterminal_states mdp) ->
     exists x, dict_get V s = Some x /\
               py_max (map (q_value_of mdp V s) (actions mdp)) = Ok x) ->
  exists Q,
    value_iteration mdp v h
    = (Ok (length h, S (length h), 0), h ++ [VT V; QT Q]).
Proof.
  intros Hv Hwf Hfix. rewrite (value_iteration_sweep mdp v h V Hv Hwf).
  destruct (sweep_fixed mdp V Hfix) as [Q HQ].
  rewrite HQ. now exists Q.
Qed.

End ValueIterationResults.

(** ** What value_iteration keeps, and how it fails *)

Section ValueIterationEdges.
Context {State Action : Type} `{EqDecision State} `{EqDecision Action}.
#[local] Abbreviation heap := (list (obj (State := State) (Action := Action))).
#[local] Abbreviation M := (M (State := State) (Action := Action)).
#[local] Abbreviation TohMdp := (TohMdp (State := State) (Action := Action)).
#[local] Abbreviation VTable := (VTable (State := State)).
#[local] Abbreviation QTable := (QTable (State := State) (Action := Action)).
Implicit Types (mdp : TohMdp) (h : heap) (v : ref) (V NV : VTable) (Q : QTable).

(** X5: value_iteration writes the entries of the nonterminal states only:
    every other key of the table it returns has the value it had in the
    input table. *)
Theorem value_iteration_keeps_other_entries mdp v h V nv q d h' :
  h !! v = Some (VT V) ->
  value_iteration mdp v h = (Ok (nv, q, d), h') ->
  exists NV,
    h' !! nv = Some (VT NV) /\
    forall k, ~ In k (nonterminal_states mdp) -> dict_get NV k = dict_get V k.
Proof.
  intros Hv Hrun.
  destruct (value_iteration_heap
              (fun NV => forall k, ~ In k (nonterminal_states mdp) ->
                                   dict_get NV k = dict_get V k)
              mdp v h V Hv) as [(_ & (NV & Hnv & HNV) & _) Hrefs].
  - intros k _. reflexivity.
  - intros NV s x Hs HNV k Hk. rewrite dict_get_set_ne; [now apply HNV|].
    intros ->. contradiction.
  - rewrite Hrun in Hnv, Hrefs. simpl in Hnv.
    destruct (Hrefs nv q d eq_refl) as [-> _]. now exists NV.
Qed.

Lemma bind_ok_inv {A B} (m : M A) (f : A -> M B) h b h' :
  bind m f h = (Ok b, h') ->
  exists a h1, m h = (Ok a, h1) /\ f a h1 = (Ok b, h').
Proof.
  rewrite bind_run. destruct (m h) as [[a|e] h1]; [|discriminate].
  intros Hf. now exists a, h1.
Qed.

(** A round that returns has put [max(max_delta, x)] in [max_delta]. *)
Lemma vi_body_ok_delta mdp v nv q state d h d' h' :
  vi_body mdp v nv q state d h = (Ok d', h') -> exists x, d' = py_max2 d x.
Proof.
  unfold vi_body. intros Hrun.
  apply bind_ok_inv in Hrun. destruct Hrun as (_ & h1 & _ & Hrun).
  apply bind_ok_inv in Hrun. destruct Hrun as (qs & h2 & _ & Hrun).
  apply bind_ok_inv in Hrun. destruct Hrun as (m & h3 & _ & Hrun).
  apply bind_ok_inv in Hrun. destruct Hrun as (_ & h4 & _ & Hrun).
  apply bind_ok_inv in Hrun. destruct Hrun as (new_v & h5 & _ & Hrun).
  apply bind_ok_inv in Hrun. destruct Hrun as (old_v & h6 & _ & Hrun).
  injection Hrun as <- _. now exists (abs (new_v - old_v)).
Qed.

(** X6: the max_delta that value_iteration returns is 0 or greater than 0;
    it is never negative and never NaN. *)
Theorem value_iteration_max_delta_sign mdp v h nv q d h' :
  value_iteration mdp v h = (Ok (nv, q, d), h') ->
  d = 0 \/ py_gt d 0 = true.
Proof.
  intros Hrun.
  destruct (h !! v ≫= as_vtable) as [V|] eqn:Hload.
  2:{ rewrite (value_iteration_bad_ref _ _ _ Hload) in Hrun. discriminate. }
  apply lookup_as_vtable in Hload.
  rewrite (value_iteration_run _ _ _ _ Hload) in Hrun.
  assert (Hbody : forall (pre : list State) x s0 (h0 : heap),
            (exists post, nonterminal_states mdp = pre ++ x :: post) ->
            s0 = 0 \/ py_gt s0 0 = true ->
            match vi_body mdp v (length h) (S (length h)) x s0 h0 with
            | (Ok s', _) => s' = 0 \/ py_gt s' 0 = true
            | (Raise _, _) => True
            end).
  { intros pre x s0 h0 _ Hs0.
    destruct (vi_body mdp v (length h) (S (length h)) x s0 h0)
      as [[s'|e] h1] eqn:Hb; [|exact I].
    destruct (vi_body_ok_delta _ _ _ _ _ _ _ _ _ Hb) as [y ->].
    unfold py_max2. destruct (py_gt y s0) eqn:Hgt; [|exact Hs0].
    right. destruct Hs0 as [->|Hpos]; [exact Hgt|].
    exact (float_ltb_trans _ _ _ Hpos Hgt). }
  pose proof (for_fold_inv
                (fun (_ : list State) (d : float) (_ : heap) =>
                   d = 0 \/ py_gt d 0 = true)
                (fun _ _ => True)
                (nonterminal_states mdp)
                (vi_body mdp v (length h) (S (length h)))
                Hbody 0 (h ++ [VT V; QT []]) (or_introl eq_refl)) as Hloop.
  destruct (for_fold _ _ _ _) as [[d0|e] h0]; [|discriminate].
  injection Hrun as _ _ <- _. exact Hloop.
Qed.

(** X7: with a nonterminal state and no action, value_iteration raises
    ValueError ([max] of an empty sequence) at the first state, after it
    has made the copy and the empty Q-table. *)
Theorem value_iteration_no_action_raises mdp v h V s rest :
  h !! v = Some (VT V) ->
  nonterminal_states mdp = s :: rest -> actions mdp = [] ->
  value_iteration mdp v h = (Raise ValueError, h ++ [VT V; QT []]).
Proof.
  intros Hv Hnt Hact. rewrite (value_iteration_run _ _ _ _ Hv), Hnt.
  simpl for_fold. unfold vi_body. rewrite Hact. reflexivity.
Qed.

End ValueIterationEdges.

(** *** Missing keys *)

Section ValueIterationKeyError.
Context {State Action : Type} `{EqDecision State} `{EqDecision Action}.
#[local] Abbreviation heap := (list (obj (State := State) (Action := Action))).
#[local] Abbreviation TohMdp := (TohMdp (State := State) (Action := Action)).
#[local] Abbreviation VTable := (VTable (State := State)).
#[local] Abbreviation QTable := (QTable (State := State) (Action := Action)).
Implicit Types (mdp : TohMdp) (h : heap) (v : ref) (V NV : VTable) (Q : QTable).

(** The loop over the actions either fills the Q-values of the state, all
    its successors being keys of the table, or raises KeyError. *)
Lemma vi_fill_loop_outcome mdp n v V NV state h Q :
  (v < n)%nat -> same_keys V NV ->
  h !! v = Some (VT V) -> h !! n = Some (VT NV) -> h !! S n = Some (QT Q) ->
  match for_ (actions mdp) (vi_fill mdp n (S n) state) h with
  | (Ok _, h') =>
      h' !! v = Some (VT V) /\ h' !! n = Some (VT NV) /\
      (exists Q', h' !! S n = Some (QT Q') /\
                  forall a, In a (actions mdp) -> In (state, a) (dict_keys Q')) /\
      forall a, In a (actions mdp) ->
                In (fst (step mdp state a)) (dict_keys V)
  | (Raise e, _) => e = KeyError
  end.
Proof.
  intros Hvn Hkeys Hv Hn Hq. unfold for_.
  apply (for_fold_inv
           (fun (pre : list Action) (_ : unit) (h' : heap) =>
              h' !! v = Some (VT V) /\ h' !! n = Some (VT NV) /\
              (exists Q', h' !! S n = Some (QT Q') /\
                          forall a, In a pre -> In (state, a) (dict_keys Q')) /\
              forall a, In a pre -> In (fst (step mdp state a)) (dict_keys V))
           (fun e _ => e = KeyError)).
  - intros pre a [] h1 _ (Hv1 & Hn1 & (Q1 & Hq1 & Hpre) & Hsucc).
    unfold vi_fill.
    destruct (step mdp state a) as [next_state rw] eqn:Hstep.
    rewrite bind_run, (v_getitem_run _ _ _ _ Hn1).
    destruct (dict_get NV next_state) as [x|] eqn:Hx; [|reflexivity].
    rewrite (q_setitem_run _ _ _ _ _ Hq1).
    rewrite !list_lookup_insert_ne by lia.
    split; [exact Hv1|]. split; [exact Hn1|]. split.
    + eexists. split.
      { apply list_lookup_insert_eq. now apply lookup_lt_Some in Hq1. }
      intros a' Ha'. apply dict_keys_set. apply in_app_or in Ha'.
      destruct Ha' as [Ha'|[<-|[]]]; [right; now apply Hpre | now left].
    + intros a' Ha'. apply in_app_or in Ha'.
      destruct Ha' as [Ha'|[<-|[]]]; [now apply Hsucc|].
      rewrite Hstep. simpl. apply Hkeys. now apply dict_get_Some_keys in Hx.
  - split; [exact Hv|]. split; [exact Hn|]. split.
    + exists Q. split; [exact Hq | intros a []].
    + intros a [].
Qed.

(** A round either succeeds, its state and the successors being keys of
    the input table, or raises KeyError. *)
Lemma vi_body_outcome mdp n v V state d h :
  (v < n)%nat -> actions mdp <> [] -> vi_live n v V h ->
  match vi_body mdp v n (S n) state d h with
  | (Ok _, h') =>
      vi_live n v V h' /\ In state (dict_keys V) /\
      forall a, In a (actions mdp) ->
                In (fst (step mdp state a)) (dict_keys V)
  | (Raise e, _) => e = KeyError
  end.
Proof.
  intros Hvn Hne (Hv & (NV & Hn & Hkeys) & (Q & Hq)).
  pose proof (vi_fill_loop_outcome mdp n v V NV state h Q Hvn Hkeys Hv Hn Hq)
    as Hfill.
  unfold vi_body. rewrite bind_run.
  destruct (for_ (actions mdp) (vi_fill mdp n (S n) state) h)
    as [[[]|e] h1]; [|exact Hfill].
  destruct Hfill as (Hv1 & Hn1 & (Q1 & Hq1 & Hall) & Hsucc).
  assert (Hqs : map_m (fun action => q_getitem (S n) (state, action))
                  (actions mdp) h1
                = (Ok (map (fun a => default 0 (dict_get Q1 (state, a)))
                           (actions mdp)), h1)).
  { apply map_m_pure. intros a Ha. rewrite (q_getitem_run _ _ _ _ Hq1).
    destruct (dict_keys_get _ _ (Hall a Ha)) as [x ->]. reflexivity. }
  rewrite (bind_ok _ _ _ _ _ Hqs).
  destruct (py_max_map_ok (fun a => default 0 (dict_get Q1 (state, a))) _ Hne)
    as [m Hm].
  rewrite bind_run. unfold lift at 1. rewrite Hm.
  rewrite bind_run, (v_setitem_run _ _ _ _ _ Hn1).
  assert (Hn2 : <[n := VT (dict_set NV state m)]> h1 !! n
                = Some (VT (dict_set NV state m))).
  { apply list_lookup_insert_eq. now apply lookup_lt_Some in Hn1. }
  rewrite bind_run, (v_getitem_run _ _ _ _ Hn2), dict_get_set_eq.
  assert (Hv2 : <[n := VT (dict_set NV state m)]> h1 !! v = Some (VT V)).
  { rewrite list_lookup_insert_ne by lia. exact Hv1. }
  rewrite bind_run, (v_getitem_run _ _ _ _ Hv2).
  destruct (dict_get V state) as [old|] eqn:Hold; [|reflexivity].
  assert (Hstate : In state (dict_keys V))
    by now apply dict_get_Some_keys in Hold.
  simpl. split; [|split; [exact Hstate | exact Hsucc]].
  split; [exact Hv2|]. split.
  - eexists. split; [exact Hn2|]. intros k. rewrite dict_keys_set.
    split; [intros [->|Hk]; [exact Hstate | now apply Hkeys]
           | intros Hk; right; now apply Hkeys].
  - exists Q1. rewrite list_lookup_insert_ne by lia. exact Hq1.
Qed.

(** X8: with at least one action, value_iteration returns exactly when
    the input table has a key for every nonterminal state and for every
    successor of one; otherwise it raises KeyError. *)
Theorem value_iteration_returns_iff_covered mdp v h V :
  h !! v = Some (VT V) -> actions mdp <> [] ->
  match fst (value_iteration mdp v h) with
  | Ok _ =>
      forall s, In s (nonterminal_states mdp) ->
        In s (dict_keys V) /\
        forall a, In a (actions mdp) ->
                  In (fst (step mdp s a)) (dict_keys V)
  | Raise e =>
      e = KeyError /\
      ~ (forall s, In s (nonterminal_states mdp) ->
           In s (dict_keys V) /\
           forall a, In a (actions mdp) ->
                     In (fst (step mdp s a)) (dict_keys V))
  end.
Proof.
  intros Hv Hne.
  assert (Hvn : (v < length h)%nat) by now apply lookup_lt_Some in Hv.
  pose proof (for_fold_inv
    (fun (pre : list State) (_ : float) (h' : heap) =>
       vi_live (length h) v V h' /\
       forall s, In s pre ->
         In s (dict_keys V) /\
         forall a, In a (actions mdp) ->
                   In (fst (step mdp s a)) (dict_keys V))
    (fun e (_ : heap) => e = KeyError)
    (nonterminal_states mdp)
    (vi_body mdp v (length h) (S (length h)))) as Hloop.
  assert (Hout : match for_fold (nonterminal_states mdp)
                         (vi_body mdp v (length h) (S (length h))) 0
                         (h ++ [VT V; QT []]) with
                 | (Ok _, h') =>
                     vi_live (length h) v V h' /\
                     forall s, In s (nonterminal_states mdp) ->
                       In s (dict_keys V) /\
                       forall a, In a (actions mdp) ->
                                 In (fst (step mdp s a)) (dict_keys V)
                 | (Raise e, _) => e = KeyError
                 end).
  { apply Hloop.
    - intros pre s d h1 _ [Hlive Hpre].
      pose proof (vi_body_outcome mdp (length h) v V s d h1 Hvn Hne Hlive)
        as Hbody.
      destruct (vi_body mdp v (length h) (S (length h)) s d h1)
        as [[d'|e] h2]; [|exact Hbody].
      destruct Hbody as (Hlive' & Hs & Hsucc). split; [exact Hlive'|].
      intros s' Hs'. apply in_app_or in Hs'.
      destruct Hs' as [Hs'|[<-|[]]]; [now apply Hpre | now split].
    - split; [|intros s []].
      split; [now apply lookup_app_l_Some|]. split.
      + exists V. split; [now apply list_lookup_middle | intros k; reflexivity].
      + exists []. apply heap_lookup_q. }
  rewrite (value_iteration_run _ _ _ _ Hv).
  destruct (for_fold _ _ _ _) as [[d|e] h'] eqn:Hrun; simpl.
  - exact (proj2 Hout).
  - split; [exact Hout|]. intros Hcov.
    destruct (value_iteration_total mdp v h V Hv) as (d & h1 & Htot).
    { split; [exact Hne|]. split.
      - intros s Hs. exact (proj1 (Hcov s Hs)).
      - intros s a Hs Ha. exact (proj2 (Hcov s Hs) a Ha). }
    rewrite (value_iteration_run _ _ _ _ Hv), Hrun in Htot. discriminate.
Qed.

End ValueIterationKeyError.

(** ** The value_iteration properties on the small MDPs *)

Lemma one_step_well_formed g : vi_well_formed (Toy.one_step g) ToyMore.v_AT.
Proof.
  split; [discriminate|]. split.
  - intros s [<-|[]]. now left.
  - intros s a _ _. right. now left.
Qed.

Lemma one_step_fixed_well_formed g :
  vi_well_formed (Toy.one_step g) ToyMore.v_fixed.
Proof.
  split; [discriminate|]. split.
  - intros s [<-|[]]. now left.
  - intros s a _ _. right. now left.
Qed.

Lemma two_cycle_well_formed : vi_well_formed Toy.two_cycle ToyMore.v_ABT.
Proof.
  split; [discriminate|]. split.
  - intros s [<-|[<-|[]]]; simpl; auto.
  - intros s a _ _. destruct s; simpl; auto.
Qed.

Lemma two_cycle_states_distinct : List.NoDup (nonterminal_states Toy.two_cycle).
Proof.
  constructor; [intros [Heq|[]]; discriminate Heq|].
  constructor; [intros []|constructor].
Qed.

(** X1 on the one-step MDP. *)
Lemma value_iteration_tables_cover_witness :
  exists NV Q d,
    value_iteration (Toy.one_step 0.8) 0%nat ToyMore.h_AT
    = (Ok (length ToyMore.h_AT, S (length ToyMore.h_AT), d),
       ToyMore.h_AT ++ [VT NV; QT Q]) /\
    dict_keys NV = dict_keys ToyMore.v_AT /\
    (forall s a, In (s, a) (dict_keys Q) <->
                 In s (nonterminal_states (Toy.one_step 0.8)) /\
                 In a (actions (Toy.one_step 0.8))).
Proof.
  apply (value_iteration_tables_cover (Toy.one_step 0.8) 0%nat
           ToyMore.h_AT ToyMore.v_AT).
  - reflexivity.
  - apply one_step_well_formed.
Defined.

(** X2 on the two-state cycle. *)
Lemma value_iteration_value_is_max_of_q_witness :
  exists NV Q d,
    value_iteration Toy.two_cycle 0%nat ToyMore.h_ABT
    = (Ok (length ToyMore.h_ABT, S (length ToyMore.h_ABT), d),
       ToyMore.h_ABT ++ [VT NV; QT Q]) /\
    forall s, In s (nonterminal_states Toy.two_cycle) ->
      exists qs m,
        List.Forall2 (fun a x => dict_get Q (s, a) = Some x)
          (actions Toy.two_cycle) qs /\
        py_max qs = Ok m /\ dict_get NV s = Some m.
Proof.
  apply (value_iteration_value_is_max_of_q Toy.two_cycle 0%nat
           ToyMore.h_ABT ToyMore.v_ABT).
  - reflexivity.
  - apply two_cycle_well_formed.
  - apply two_cycle_states_distinct.
Defined.

(** X3 on the two-state cycle, at B, swept after A. *)
Lemma value_iteration_q_values_witness :
  exists NV Q d,
    value_iteration Toy.two_cycle 0%nat ToyMore.h_ABT
    = (Ok (length ToyMore.h_ABT, S (length ToyMore.h_ABT), d),
       ToyMore.h_ABT ++ [VT NV; QT Q]) /\
    forall a, In a (actions Toy.two_cycle) ->
      exists w,
        (In (fst (step Toy.two_cycle Toy.B a)) [Toy.A] ->
         dict_get NV (fst (step Toy.two_cycle Toy.B a)) = Some w) /\
        (~ In (fst (step Toy.two_cycle Toy.B a)) [Toy.A] ->
         dict_get ToyMore.v_ABT (fst (step Toy.two_cycle Toy.B a)) = Some w) /\
        dict_get Q (Toy.B, a)
        = Some (0.8 * (reward Toy.two_cycle Toy.B a
                         (fst (step Toy.two_cycle Toy.B a)) + w)).
Proof.
  apply (value_iteration_q_values Toy.two_cycle 0%nat
           ToyMore.h_ABT ToyMore.v_ABT [Toy.A] Toy.B []).
  - reflexivity.
  - apply two_cycle_well_formed.
  - apply two_cycle_states_distinct.
  - reflexivity.
Defined.

(** X4 on the one-step MDP, at its fixed point [{A: 8, T: 0}]. *)
Lemma value_iteration_fixed_point_witness :
  exists Q,
    value_iteration (Toy.one_step 0.8) 0%nat ToyMore.h_fixed
    = (Ok (length ToyMore.h_fixed, S (length ToyMore.h_fixed), 0),
       ToyMore.h_fixed ++ [VT ToyMore.v_fixed; QT Q]).
Proof.
  apply (value_iteration_fixed_point (Toy.one_step 0.8) 0%nat
           ToyMore.h_fixed ToyMore.v_fixed).
  - reflexivity.
  - apply one_step_fixed_well_formed.
  - intros s [<-|[]]. exists 8. split; reflexivity.
Defined.

(** X5 on the one-step MDP: the entry of T is kept. *)
Lemma value_iteration_keeps_other_entries_witness :
  exists NV,
    (ToyMore.h_AT ++ [VT [(Toy.A, 8); (Toy.T, 0)];
                      QT [((Toy.A, Toy.move), 8)]]) !! 1%nat
    = Some (VT NV) /\
    forall k, ~ In k (nonterminal_states (Toy.one_step 0.8)) ->
              dict_get NV k = dict_get ToyMore.v_AT k.
Proof.
  apply (value_iteration_keeps_other_entries (Toy.one_step 0.8) 0%nat
           ToyMore.h_AT ToyMore.v_AT 1%nat 2%nat 8
           (ToyMore.h_AT ++ [VT [(Toy.A, 8); (Toy.T, 0)];
                             QT [((Toy.A, Toy.move), 8)]])).
  - reflexivity.
  - reflexivity.
Defined.

(** X6 on the one-step MDP: max_delta is 8. *)
Lemma value_iteration_max_delta_sign_witness : 8 = 0 \/ py_gt 8 0 = true.
Proof.
  apply (value_iteration_max_delta_sign (Toy.one_step 0.8) 0%nat
           ToyMore.h_AT 1%nat 2%nat 8
           (ToyMore.h_AT ++ [VT [(Toy.A, 8); (Toy.T, 0)];
                             QT [((Toy.A, Toy.move), 8)]])).
  reflexivity.
Defined.

(** X7 on the MDP without actions. *)
Lemma value_iteration_no_action_raises_witness :
  value_iteration ToyMore.no_actions 0%nat ToyMore.h_A
  = (Raise ValueError, ToyMore.h_A ++ [VT ToyMore.v_A; QT []]).
Proof.
  apply (value_iteration_no_action_raises ToyMore.no_actions 0%nat
           ToyMore.h_A ToyMore.v_A Toy.A []); reflexivity.
Defined.

(** X8 on the one-step MDP with a table that lacks the terminal state. *)
Lemma value_iteration_returns_iff_covered_witness :
  match fst (value_iteration (Toy.one_step 0.8) 0%nat ToyMore.h_A) with
  | Ok _ =>
      forall s, In s (nonterminal_states (Toy.one_step 0.8)) ->
        In s (dict_keys ToyMore.v_A) /\
        forall a, In a (actions (Toy.one_step 0.8)) ->
                  In (fst (step (Toy.one_step 0.8) s a)) (dict_keys ToyMore.v_A)
  | Raise e =>
      e = KeyError /\
      ~ (forall s, In s (nonterminal_states (Toy.one_step 0.8)) ->
           In s (dict_keys ToyMore.v_A) /\
           forall a, In a (actions (Toy.one_step 0.8)) ->
                     In (fst (step (Toy.one_step 0.8) s a))
                        (dict_keys ToyMore.v_A))
  end.
Proof.
  apply (value_iteration_returns_iff_covered (Toy.one_step 0.8) 0%nat
           ToyMore.h_A ToyMore.v_A).
  - reflexivity.
  - discriminate.
Defined.

(** ** More on extract_policy *)

Section ExtractPolicyMore.
Context {State Action : Type} `{EqDecision State} `{EqDecision Action}.
#[local] Abbreviation heap := (list (obj (State := State) (Action := Action))).
#[local] Abbreviation TohMdp := (TohMdp (State := State) (Action := Action)).
#[local] Abbreviation QTable := (QTable (State := State) (Action := Action)).
#[local] Abbreviation Policy := (Policy (State := State) (Action := Action)).
Implicit Types (mdp : TohMdp) (h : heap) (q : ref) (Q : QTable) (P : Policy).

Lemma dict_set_fresh_keys {K X : Type} `{EqDecision K} (d0 : dict K X) k x :
  ~ In k (dict_keys d0) -> dict_keys (dict_set d0 k x) = dict_keys d0 ++ [k].
Proof.
  unfold dict_keys. induction d0 as [|[k' x'] d0 IH]; simpl; [reflexivity|].
  intros Hnin. destruct (decide (k' = k)) as [->|Hne].
  - exfalso. apply Hnin. now left.
  - simpl. f_equal. apply IH. intros Hin. apply Hnin. now right.
Qed.

Lemma dict_keys_fold_set_fresh {K X : Type} `{EqDecision K} (f : K -> X)
    (xs : list K) (d0 : dict K X) :
  List.NoDup xs -> (forall k, In k xs -> ~ In k (dict_keys d0)) ->
  dict_keys (fold_left (fun d x => dict_set d x (f x)) xs d0)
  = dict_keys d0 ++ xs.
Proof.
  revert d0. induction xs as [|x xs IH]; intros d0 Hnd Hfresh; simpl.
  - now rewrite app_nil_r.
  - inversion Hnd as [|? ? Hx Hnd']; subst.
    rewrite IH; [|exact Hnd'|].
    + rewrite dict_set_fresh_keys by (apply Hfresh; now left).
      now rewrite <- app_assoc.
    + intros k Hk Hin. apply dict_keys_set in Hin.
      destruct Hin as [->|Hin]; [contradiction|].
      apply (Hfresh k); [now right | exact Hin].
Qed.

(** X9: on a live Q-table extract_policy never raises; it returns a new
    policy whose keys are exactly the nonterminal states (in their order,
    when none is listed twice) and leaves the rest of the heap as it was. *)
Theorem extract_policy_keys mdp q h Q :
  h !! q = Some (QT Q) ->
  exists P,
    extract_policy mdp q h = (Ok (length h), h ++ [PT P]) /\
    (forall s, In s (dict_keys P) <-> In s (nonterminal_states mdp)) /\
    (List.NoDup (nonterminal_states mdp) ->
     dict_keys P = nonterminal_states mdp).
Proof.
  intros Hq. exists (policy_of mdp Q).
  split; [now apply extract_policy_run|]. split.
  - intros s. rewrite <- dict_mem_true. unfold dict_mem, policy_of.
    destruct (in_dec (fun x y => decide (x = y)) s (nonterminal_states mdp))
      as [Hs|Hs].
    + rewrite (dict_get_fold_set_in
                 (fun s => fst (greedy Q s (actions mdp) (None, neg_inf)))
                 _ _ _ Hs).
      split; auto.
    + rewrite (dict_get_fold_set_notin
                 (fun s => fst (greedy Q s (actions mdp) (None, neg_inf)))
                 _ _ _ Hs).
      simpl. split; [discriminate | contradiction].
  - intros Hnd. unfold policy_of.
    rewrite (dict_keys_fold_set_fresh
               (fun s => fst (greedy Q s (actions mdp) (None, neg_inf)))
               _ [] Hnd); [reflexivity|].
    intros k _ [].
Qed.

(** X10: the policy maps a nonterminal state to None exactly when none of
    its entries, over the MDP's actions, is greater than -inf (none is
    present in particular); an action it maps a state to is one of the
    MDP's actions, with a present entry greater than -inf. *)
Theorem extract_policy_none_iff mdp q h Q s :
  h !! q = Some (QT Q) -> In s (nonterminal_states mdp) ->
  exists P,
    extract_policy mdp q h = (Ok (length h), h ++ [PT P]) /\
    (dict_get P s = Some None <->
     forall a v, In a (actions mdp) -> dict_get Q (s, a) = Some v ->
                 py_gt v neg_inf = false) /\
    (forall a, dict_get P s = Some (Some a) ->
       In a (actions mdp) /\
       exists v, dict_get Q (s, a) = Some v /\ py_gt v neg_inf = true).
Proof.
  intros Hq Hs. exists (policy_of mdp Q).
  split; [now apply extract_policy_run|].
  rewrite (policy_of_get mdp Q s Hs).
  destruct (greedy_spec Q s (actions mdp) None neg_inf)
    as [[Heq Hle]|(l1 & a & l2 & m & Hsplit & Heq & Hm & Hgt & _)];
    rewrite Heq; simpl.
  - split; [split; [intros _; exact Hle | reflexivity]|].
    intros a [=].
  - split.
    + split; [intros [=]|].
      intros Hle. exfalso.
      assert (Ha : In a (actions mdp)).
      { rewrite Hsplit. apply in_or_app. right. now left. }
      rewrite (Hle a m Ha Hm) in Hgt. discriminate.
    + intros a' [= <-]. split.
      * rewrite Hsplit. apply in_or_app. right. now left.
      * now exists m.
Qed.

End ExtractPolicyMore.

(** ** More on q_update *)

Section QUpdateMore.
Context {State Action : Type} `{EqDecision State} `{EqDecision Action}.
#[local] Abbreviation heap := (list (obj (State := State) (Action := Action))).
#[local] Abbreviation TohMdp := (TohMdp (State := State) (Action := Action)).
#[local] Abbreviation QTable := (QTable (State := State) (Action := Action)).
Implicit Types (mdp : TohMdp) (h : heap) (q : ref) (Q : QTable).

(** X11: an update that succeeds rewrites the entry of (s, a) and nothing
    else: the table keeps its keys, in their order, every other entry
    keeps its value, and every other object of the heap is as it was. *)
Theorem q_update_changes_one_entry mdp q s a r s' alpha h Q prior :
  h !! q = Some (QT Q) -> dict_get Q (s, a) = Some prior ->
  exists Q',
    q_update mdp q (s, a, r, s') alpha h = (Ok tt, <[q := QT Q']> h) /\
    dict_keys Q' = dict_keys Q /\
    (forall k, k <> (s, a) -> dict_get Q' k = dict_get Q k) /\
    (forall l, l <> q -> <[q := QT Q']> h !! l = h !! l).
Proof.
  intros Hq Hprior.
  rewrite (q_update_run mdp q s a r s' alpha h Q Hq), Hprior.
  eexists. split; [reflexivity|]. split; [|split].
  - apply dict_set_present_keys. now apply dict_get_Some_keys in Hprior.
  - intros k Hk. apply dict_get_set_ne. congruence.
  - intros l Hl. apply list_lookup_insert_ne. congruence.
Qed.

Lemma next_max_no_entry Q next_state :
  (forall a, ~ In (next_state, a) (dict_keys Q)) ->
  next_max Q next_state = neg_inf.
Proof.
  intros Hnone. rewrite next_max_run_max.
  destruct (values_at Q next_state (dict_keys Q)) as [|x xs] eqn:Hvs;
    [reflexivity|].
  exfalso.
  assert (Hne : values_at Q next_state (dict_keys Q) <> [])
    by (rewrite Hvs; discriminate).
  apply values_at_nonempty in Hne. destruct Hne as [a Ha].
  exact (Hnone a Ha).
Qed.

(** X12: away from a goal state, when the next state has no entry in the
    table, the bootstrap value is -inf: the update stores
    (1 - alpha) * prior + alpha * (r + gamma * -inf). *)
Theorem q_update_unvisited_next_state mdp q s a r s' alpha h Q prior :
  h !! q = Some (QT Q) -> is_goal mdp s = false ->
  (forall a', ~ In (s', a') (dict_keys Q)) ->
  dict_get Q (s, a) = Some prior ->
  q_update mdp q (s, a, r, s') alpha h
  = (Ok tt,
     <[q := QT (dict_set Q (s, a)
                  ((1 - alpha) * prior
                   + alpha * (r + gamma (config mdp) * neg_inf)))]> h).
Proof.
  intros Hq Hgoal Hnone Hprior.
  rewrite (q_update_run mdp q s a r s' alpha h Q Hq), Hprior.
  unfold bootstrap. now rewrite Hgoal, (next_max_no_entry Q s' Hnone).
Qed.

End QUpdateMore.

(** ** More on choose_next_action *)

Section ChooseNextActionMore.
Context {State Action : Type} `{EqDecision State} `{EqDecision Action}.
#[local] Abbreviation heap := (list (obj (State := State) (Action := Action))).
#[local] Abbreviation TohMdp := (TohMdp (State := State) (Action := Action)).
#[local] Abbreviation QTable := (QTable (State := State) (Action := Action)).
Implicit Types (mdp : TohMdp) (h : heap) (q : ref) (Q : QTable).

Lemma float_eqb_ltb_l (x y z : float) :
  (x =? y) = true -> (y <? z) = true -> (x <? z) = true.
Proof.
  rewrite !float_ltb_key, float_eqb_key.
  intros (k & H1 & H2) (k2 & k3 & H2' & H3 & Hlt).
  rewrite H2 in H2'. injection H2' as <-. exists k, k3. auto.
Qed.

(** The value the first loop ends with is the one the loop of [q_update]
    finds for the state. *)
Lemma best_fold_snd Q state ks ba bq :
  snd (fold_left (fun best k => best_step Q state k best) ks (ba, bq))
  = fold_left (fun maxQ k => next_max_step Q state k maxQ) ks bq.
Proof.
  revert ba bq. induction ks as [|[s a] ks IH]; intros ba bq; [reflexivity|].
  simpl. destruct (decide (s = state)); [|apply IH].
  destruct (dict_get Q (s, a)) as [v|]; [|apply IH].
  destruct (py_gt v bq); apply IH.
Qed.

(** The second loop appends the keys of the state whose value equals [m],
    and nothing else. *)
Lemma ties_fold_exact Q state m ks best :
  exists more,
    fold_left (fun best k => ties_step Q state m k best) ks best
    = best ++ more /\
    (forall a v, In (state, a) ks -> dict_get Q (state, a) = Some v ->
                 py_eq v m = true -> In (Some a) more) /\
    (forall x, In x more ->
       exists a v, x = Some a /\ In (state, a) ks /\
                   dict_get Q (state, a) = Some v /\ py_eq v m = true).
Proof.
  revert best. induction ks as [|[s a] ks IH]; intros best.
  - exists []. split; [now rewrite app_nil_r|].
    split; [intros a v [] | intros x []].
  - change (fold_left (fun best k => ties_step Q state m k best)
              ((s, a) :: ks) best)
      with (fold_left (fun best k => ties_step Q state m k best) ks
              (ties_step Q state m (s, a) best)).
    destruct (IH (ties_step Q state m (s, a) best))
      as (more & Heq & Hall & Honly).
    rewrite Heq. simpl ties_step.
    assert (Hlift : forall x, In x more ->
              exists a0 v, x = Some a0 /\ In (state, a0) ((s, a) :: ks) /\
                           dict_get Q (state, a0) = Some v /\ py_eq v m = true).
    { intros x Hx. destruct (Honly x Hx) as (a0 & v & -> & Hin & Hv & He).
      exists a0, v. repeat split; [now right | exact Hv | exact He]. }
    destruct (decide (s = state)) as [->|Hne].
    + destruct (dict_get Q (state, a)) as [v|] eqn:Hv.
      * destruct (py_eq v m) eqn:Heqb.
        -- exists (Some a :: more). split; [now rewrite <- app_assoc|]. split.
           ++ intros a1 v1 [[= <-]|Hin] Hv1 He1; [now left | right; eauto].
           ++ intros x [<-|Hx]; [|now apply Hlift].
              exists a, v. repeat split; [now left | exact Hv | exact Heqb].
        -- exists more. split; [reflexivity|]. split; [|exact Hlift].
           intros a1 v1 [[= <-]|Hin] Hv1 He1; [congruence | eauto].
      * exists more. split; [reflexivity|]. split; [|exact Hlift].
        intros a1 v1 [[= <-]|Hin] Hv1 He1; [congruence | eauto].
    + exists more. split; [reflexivity|]. split; [|exact Hlift].
      intros a1 v1 [[= -> _]|Hin] Hv1 He1; [congruence | eauto].
Qed.

(** X13: on a live Q-table choose_next_action only reads; it calls
    epsilon_greedy with [best_action] followed by the ties. Every action
    of the list has a present value that no entry of the state exceeds; an
    action whose value is a number (not NaN) that no entry of the state
    exceeds is among the ties; and [best_action] is None exactly when no
    entry of the state is greater than -inf. *)
Theorem choose_next_action_candidates {R : Type} mdp state epsilon q
    (epsilon_greedy : list (option Action) -> float -> R) h Q :
  h !! q = Some (QT Q) ->
  exists best_action ties,
    choose_next_action mdp state epsilon q epsilon_greedy h
    = (Ok (epsilon_greedy (best_action :: ties) epsilon), h) /\
    (forall a, In (Some a) (best_action :: ties) ->
       exists v, dict_get Q (state, a) = Some v /\
                 forall a' v', dict_get Q (state, a') = Some v' ->
                               py_gt v' v = false) /\
    (forall a v, dict_get Q (state, a) = Some v -> is_nan v = false ->
       (forall a' v', dict_get Q (state, a') = Some v' -> py_gt v' v = false) ->
       In (Some a) ties) /\
    (best_action = None <->
     forall a v, dict_get Q (state, a) = Some v -> py_gt v neg_inf = false).
Proof.
  intros Hq. unfold choose_next_action.
  rewrite (bind_ok _ _ _ _ _ (best_actions_run mdp state q h Q Hq)).
  unfold candidates.
  pose proof (best_fold_snd Q state (dict_keys Q) None neg_inf) as Hsnd.
  pose proof (best_fold_spec Q state (dict_keys Q) None neg_inf) as Hbest.
  destruct (fold_left (fun best k => best_step Q state k best) (dict_keys Q)
              (None, neg_inf)) as [ba bq].
  simpl in Hsnd.
  assert (Hbq : bq = run_max (values_at Q state (dict_keys Q)) neg_inf).
  { rewrite Hsnd. exact (next_max_run_max Q state). }
  pose proof (run_max_spec (values_at Q state (dict_keys Q)) neg_inf) as Hrm.
  rewrite <- Hbq in Hrm.
  assert (Hupper : forall a v, dict_get Q (state, a) = Some v ->
                               py_gt v bq = false).
  { intros a v Hv.
    assert (Hin : In v (values_at Q state (dict_keys Q)))
      by (apply values_at_In; now exists a).
    destruct Hrm as [[Heq Hle]|(_ & _ & Hle)]; [rewrite Heq|]; now apply Hle. }
  destruct (ties_fold_exact Q state bq (dict_keys Q) ([] ++ [ba]))
    as (ties & Heq & Hall & Honly).
  rewrite Heq. exists ba, ties. split; [reflexivity|].
  assert (Htie : forall a v v', dict_get Q (state, a) = Some v ->
                   py_eq v bq = true ->
                   forall a', dict_get Q (state, a') = Some v' ->
                              py_gt v' v = false).
  { intros a v v' Hv He a' Hv'. apply not_true_is_false. intros Hgt.
    unfold py_gt, py_eq in *.
    pose proof (float_eqb_ltb_l _ _ _ (float_eqb_sym _ _ He) Hgt) as Hbad.
    now rewrite (Hupper a' v' Hv') in Hbad. }
  split; [|split].
  - intros a [Hhead|Htail].
    + subst ba.
      destruct Hbest as [[[=] _]|(a0 & m & [= <- <-] & _ & Hm & _)].
      exists bq. split; [exact Hm|]. intros a' v'. apply Hupper.
    + destruct (Honly _ Htail) as (a0 & v & [= <-] & _ & Hv & He).
      exists v. split; [exact Hv|]. intros a' v' Hv'.
      exact (Htie a v v' Hv He a' Hv').
  - intros a v Hv Hnan Hmax.
    apply (Hall a v (dict_get_Some_keys _ _ _ Hv) Hv).
    assert (Hvv : (v =? v) = true).
    { unfold is_nan in Hnan. now apply negb_false_iff in Hnan. }
    destruct Hrm as [[Hbq0 Hle]|(Hgt & Hin & Hle)].
    + assert (Hv0 : v = neg_infinity).
      { apply neg_infinity_least; [exact Hvv|].
        assert (Hin : In v (values_at Q state (dict_keys Q)))
          by (apply values_at_In; now exists a).
        exact (Hle v Hin). }
      rewrite Hbq0, Hv0. reflexivity.
    + apply values_at_In in Hin. destruct Hin as [a0 Ha0].
      unfold py_eq. apply float_eqb_of_not_ltb.
      * exact Hvv.
      * exact (float_ltb_eqb_refl_r _ _ Hgt).
      * exact (Hmax a0 bq Ha0).
      * exact (Hupper a v Hv).
  - split.
    + intros ->.
      destruct Hbest as [[_ Hle]|(a0 & m & [=] & _)].
      intros a v Hv. apply (Hle a v); [|exact Hv].
      now apply dict_get_Some_keys in Hv.
    + intros Hle.
      destruct Hbest as [[Hpair _]|(a0 & m & Hpair & _ & Hm & Hgt)].
      * now injection Hpair.
      * rewrite (Hle a0 m Hm) in Hgt. discriminate.
Qed.

Lemma best_fold_no_entry Q state ks acc :
  (forall a, ~ In (state, a) ks) ->
  fold_left (fun best k => best_step Q state k best) ks acc = acc.
Proof.
  revert acc. induction ks as [|[s a] ks IH]; intros [ba bq] Hnone;
    [reflexivity|].
  simpl. destruct (decide (s = state)) as [->|Hne].
  - exfalso. apply (Hnone a). now left.
  - apply IH. intros a' Hin. apply (Hnone a'). now right.
Qed.

Lemma ties_fold_no_entry Q state m ks best :
  (forall a, ~ In (state, a) ks) ->
  fold_left (fun best k => ties_step Q state m k best) ks best = best.
Proof.
  revert best. induction ks as [|[s a] ks IH]; intros best Hnone;
    [reflexivity|].
  simpl. destruct (decide (s = state)) as [->|Hne].
  - exfalso. apply (Hnone a). now left.
  - apply IH. intros a' Hin. apply (Hnone a'). now right.
Qed.

(** X14: for a state without any entry in the table, whatever the other
    entries are, choose_next_action calls epsilon_greedy with the list
    [None]. *)
Theorem choose_next_action_no_entry {R : Type} mdp state epsilon q
    (epsilon_greedy : list (option Action) -> float -> R) h Q :
  h !! q = Some (QT Q) ->
  (forall a, ~ In (state, a) (dict_keys Q)) ->
  choose_next_action mdp state epsilon q epsilon_greedy h
  = (Ok (epsilon_greedy [None] epsilon), h).
Proof.
  intros Hq Hnone. unfold choose_next_action.
  rewrite (bind_ok _ _ _ _ _ (best_actions_run mdp state q h Q Hq)).
  unfold candidates.
  rewrite (best_fold_no_entry Q state (dict_keys Q) (None, neg_inf) Hnone).
  now rewrite (ties_fold_no_entry Q state neg_inf (dict_keys Q) _ Hnone).
Qed.

End ChooseNextActionMore.

(** ** q_update and extract_v_table find the same maximum *)

Section BootstrapAndVTable.
Context {State Action : Type} `{EqDecision State} `{EqDecision Action}.
#[local] Abbreviation heap := (list (obj (State := State) (Action := Action))).
#[local] Abbreviation TohMdp := (TohMdp (State := State) (Action := Action)).
#[local] Abbreviation QTable := (QTable (State := State) (Action := Action)).
Implicit Types (mdp : TohMdp) (h : heap) (q : ref) (Q : QTable).

(** X15: away from a goal state, when the next state s' has an entry, the
    bootstrap value of q_update is the value that extract_v_table gives
    s' on the same table. *)
Theorem q_update_bootstrap_is_extracted_value
    mdp q s a r s' alpha h Q prior a' :
  h !! q = Some (QT Q) -> is_goal mdp s = false ->
  In (s', a') (dict_keys Q) -> dict_get Q (s, a) = Some prior ->
  exists V m,
    extract_v_table mdp q h = (Ok (length h), h ++ [VT V]) /\
    dict_get V s' = Some m /\
    q_update mdp q (s, a, r, s') alpha h
    = (Ok tt,
       <[q := QT (dict_set Q (s, a)
                    ((1 - alpha) * prior
                     + alpha * (r + gamma (config mdp) * m)))]> h).
Proof.
  intros Hq Hgoal Hin Hprior.
  exists (v_table_of Q), (next_max Q s').
  split; [now apply extract_v_table_run|]. split.
  - rewrite v_table_of_get, next_max_run_max.
    destruct (values_at Q s' (dict_keys Q)) as [|x xs] eqn:Hvs;
      [|reflexivity].
    exfalso.
    assert (Hne : values_at Q s' (dict_keys Q) <> []).
    { apply values_at_nonempty. now exists a'. }
    now rewrite Hvs in Hne.
  - rewrite (q_update_run mdp q s a r s' alpha h Q Hq), Hprior.
    unfold bootstrap. now rewrite Hgoal.
Qed.

End BootstrapAndVTable.

(** ** The properties of the other functions on the small MDPs *)

(** X9 on a table with entries for A and B. *)
Lemma extract_policy_keys_witness :
  exists P,
    extract_policy Toy.goal_at_A 0%nat ToyMore.h_ties
    = (Ok (length ToyMore.h_ties), ToyMore.h_ties ++ [PT P]) /\
    (forall s, In s (dict_keys P) <-> In s (nonterminal_states Toy.goal_at_A)) /\
    (List.NoDup (nonterminal_states Toy.goal_at_A) ->
     dict_keys P = nonterminal_states Toy.goal_at_A).
Proof.
  apply (extract_policy_keys Toy.goal_at_A 0%nat ToyMore.h_ties ToyMore.q_ties).
  reflexivity.
Defined.

(** X10 at state B. *)
Lemma extract_policy_none_iff_witness :
  exists P,
    extract_policy Toy.goal_at_A 0%nat ToyMore.h_ties
    = (Ok (length ToyMore.h_ties), ToyMore.h_ties ++ [PT P]) /\
    (dict_get P Toy.B = Some None <->
     forall a v, In a (actions Toy.goal_at_A) ->
                 dict_get ToyMore.q_ties (Toy.B, a) = Some v ->
                 py_gt v neg_inf = false) /\
    (forall a, dict_get P Toy.B = Some (Some a) ->
       In a (actions Toy.goal_at_A) /\
       exists v, dict_get ToyMore.q_ties (Toy.B, a) = Some v /\
                 py_gt v neg_inf = true).
Proof.
  apply (extract_policy_none_iff Toy.goal_at_A 0%nat ToyMore.h_ties
           ToyMore.q_ties Toy.B).
  - reflexivity.
  - simpl. right. now left.
Defined.

(** X11: an update of (A, move), whose value is 5. *)
Lemma q_update_changes_one_entry_witness :
  exists Q',
    q_update Toy.goal_at_A 0%nat (Toy.A, Toy.move, 10, Toy.T) 0.5
      ToyMore.h_ties
    = (Ok tt, <[0%nat := QT Q']> ToyMore.h_ties) /\
    dict_keys Q' = dict_keys ToyMore.q_ties /\
    (forall k, k <> (Toy.A, Toy.move) ->
               dict_get Q' k = dict_get ToyMore.q_ties k) /\
    (forall l, l <> 0%nat ->
               <[0%nat := QT Q']> ToyMore.h_ties !! l = ToyMore.h_ties !! l).
Proof.
  apply (q_update_changes_one_entry Toy.goal_at_A 0%nat Toy.A Toy.move 10
           Toy.T 0.5 ToyMore.h_ties ToyMore.q_ties 5); reflexivity.
Defined.

(** X12: from A, not a goal of the one-step MDP, into T, which has no
    entry. *)
Lemma q_update_unvisited_next_state_witness :
  q_update (Toy.one_step 0.8) 0%nat (Toy.A, Toy.move, 10, Toy.T) 0.5
    ToyMore.h_ties
  = (Ok tt,
     <[0%nat := QT (dict_set ToyMore.q_ties (Toy.A, Toy.move)
                  ((1 - 0.5) * 5
                   + 0.5 * (10 + gamma (config (Toy.one_step 0.8))
                                 * neg_inf)))]> ToyMore.h_ties).
Proof.
  apply (q_update_unvisited_next_state (Toy.one_step 0.8) 0%nat Toy.A
           Toy.move 10 Toy.T 0.5 ToyMore.h_ties ToyMore.q_ties 5).
  - reflexivity.
  - reflexivity.
  - intros a' [Heq|[Heq|[Heq|[]]]]; discriminate Heq.
  - reflexivity.
Defined.

(** X13 at state B, whose two entries are tied. *)
Lemma choose_next_action_candidates_witness :
  exists best_action ties,
    choose_next_action Toy.goal_at_A Toy.B 0.1 0%nat (fun best _ => best)
      ToyMore.h_ties
    = (Ok (best_action :: ties), ToyMore.h_ties) /\
    (forall a, In (Some a) (best_action :: ties) ->
       exists v, dict_get ToyMore.q_ties (Toy.B, a) = Some v /\
                 forall a' v', dict_get ToyMore.q_ties (Toy.B, a') = Some v' ->
                               py_gt v' v = false) /\
    (forall a v, dict_get ToyMore.q_ties (Toy.B, a) = Some v ->
       is_nan v = false ->
       (forall a' v', dict_get ToyMore.q_ties (Toy.B, a') = Some v' ->
                      py_gt v' v = false) ->
       In (Some a) ties) /\
    (best_action = None <->
     forall a v, dict_get ToyMore.q_ties (Toy.B, a) = Some v ->
                 py_gt v neg_inf = false).
Proof.
  apply (choose_next_action_candidates Toy.goal_at_A Toy.B 0.1 0%nat
           (fun best _ => best) ToyMore.h_ties ToyMore.q_ties).
  reflexivity.
Defined.

(** X14 at state T, which has no entry. *)
Lemma choose_next_action_no_entry_witness :
  choose_next_action Toy.goal_at_A Toy.T 0.1 0%nat (fun best _ => best)
    ToyMore.h_ties
  = (Ok [None], ToyMore.h_ties).
Proof.
  apply (choose_next_action_no_entry Toy.goal_at_A Toy.T 0.1 0%nat
           (fun best _ => best) ToyMore.h_ties ToyMore.q_ties).
  - reflexivity.
  - intros a [Heq|[Heq|[Heq|[]]]]; discriminate Heq.
Defined.

(** X15: an update of (A, move) with next state B. *)
Lemma q_update_bootstrap_is_extracted_value_witness :
  exists V m,
    extract_v_table (Toy.one_step 0.8) 0%nat ToyMore.h_ties
    = (Ok (length ToyMore.h_ties), ToyMore.h_ties ++ [VT V]) /\
    dict_get V Toy.B = Some m /\
    q_update (Toy.one_step 0.8) 0%nat (Toy.A, Toy.move, 10, Toy.B) 0.5
      ToyMore.h_ties
    = (Ok tt,
       <[0%nat := QT (dict_set ToyMore.q_ties (Toy.A, Toy.move)
                    ((1 - 0.5) * 5
                     + 0.5 * (10 + gamma (config (Toy.one_step 0.8)) * m)))]>
         ToyMore.h_ties).
Proof.
  apply (q_update_bootstrap_is_extracted_value (Toy.one_step 0.8) 0%nat
           Toy.A Toy.move 10 Toy.B 0.5 ToyMore.h_ties ToyMore.q_ties 5
           Toy.stay).
  - reflexivity.
  - reflexivity.
  - simpl. now left.
  - reflexivity.
Defined.
